(** * Week5 notebook, "Decision tree from scratch": split finding

    Shallow embedding of the four functions of the notebook
    ([splits], [split_data], [MAE], [get_best_split]) together with the
    fragments of Python and NumPy they rest on, and the properties of the
    split evaluator proved over that embedding.

    Numbers.  The notebook works on NumPy arrays of numbers.  Arithmetic is
    taken exact here: an array element is a canonical rational ([Qc], so
    that numeric equality is Leibniz equality, as it is for the keys of a
    Python dict).  Rounding of float64 and wrap-around of int64 are outside
    the model.  The one IEEE feature that the code's behaviour depends on
    is kept: [np.mean] of an empty array is NaN, NaN propagates through
    [+] and [*], and every comparison with NaN is false.

    Where the exact numbers and the machine's part ways, a statement is
    made for int64 inputs small enough for every operation involved to be
    exact, and [Module Machine] evaluates [splits] on int64 and float64
    themselves (IEEE 754 binary64 as specified by [SpecFloat]). *)

From Stdlib Require Floats.
From Stdlib Require Import String Ascii DecimalString DecimalNat.
From Stdlib Require Import List Bool Arith ZArith QArith Qcanon Qcabs.
From Stdlib Require Import Lia Lqa Permutation Sorted Orders Mergesort.
Import ListNotations.

Local Open Scope Qc_scope.
Local Open Scope list_scope.

(** ** Python: exceptions and results *)

Module Py.

Inductive exn : Type :=
| ValueError          (* min() of an empty iterable *)
| ZeroDivisionError   (* int / int with a zero divisor *)
| IndexError          (* boolean index of the wrong length *)
| TypeError.          (* '<' between None and a tuple *)

Inductive result (A : Type) : Type :=
| Ok (a : A)
| Raise (e : exn).

Arguments Ok {A} a.
Arguments Raise {A} e.

Definition bind {A B : Type} (m : result A) (k : A -> result B) : result B :=
  match m with
  | Ok a => k a
  | Raise e => Raise e
  end.

(** A [for] loop whose body may raise: the state is threaded through the
    iterations and the first exception aborts the loop. *)
Fixpoint for_each {A S : Type} (body : S -> A -> result S)
  (it : list A) (s : S) : result S :=
  match it with
  | [] => Ok s
  | a :: it' => bind (body s a) (for_each body it')
  end.

End Py.

Import Py.

Notation "x <- m ;; k" := (Py.bind m (fun x => k))
  (at level 61, m at next level, right associativity).
Notation "' p <- m ;; k" := (Py.bind m (fun p => k))
  (at level 61, p pattern, m at next level, right associativity).

(** ** Numbers *)

Definition Qc_eqb (a b : Qc) : bool := Qeq_bool a b.
Definition Qc_leb (a b : Qc) : bool := Qle_bool a b.
Definition Qc_ltb (a b : Qc) : bool := negb (Qle_bool b a).

Definition Qc_of_nat (n : nat) : Qc := Q2Qc (inject_Z (Z.of_nat n)).

(** The literal [n/d]. *)
Definition frac (n : Z) (d : positive) : Qc := Q2Qc (n # d).

(** ** NumPy: float scalars with NaN, and one-dimensional arrays *)

Module Np.

Inductive float : Type :=
| Num (q : Qc)
| NaN.

Definition add (a b : float) : float :=
  match a, b with
  | Num p, Num q => Num (p + q)
  | _, _ => NaN
  end.

Definition sub (a b : float) : float :=
  match a, b with
  | Num p, Num q => Num (p - q)
  | _, _ => NaN
  end.

Definition mul (a b : float) : float :=
  match a, b with
  | Num p, Num q => Num (p * q)
  | _, _ => NaN
  end.

Definition abs (a : float) : float :=
  match a with
  | Num p => Num (Qcabs p)
  | NaN => NaN
  end.

(** [a == b], [a < b] and [a <= b] on scalars; false as soon as one side
    is NaN. *)
Definition eqb (a b : float) : bool :=
  match a, b with
  | Num p, Num q => Qc_eqb p q
  | _, _ => false
  end.

Definition ltb (a b : float) : bool :=
  match a, b with
  | Num p, Num q => Qc_ltb p q
  | _, _ => false
  end.

Definition leb (a b : float) : bool :=
  match a, b with
  | Num p, Num q => Qc_leb p q
  | _, _ => false
  end.

(** An array of numbers seen as an array of float scalars. *)
Definition asfloat (a : list Qc) : list float := map Num a.

(** [a - s] with the scalar [s] broadcast, and [np.absolute a]. *)
Definition sub_scalar (a : list float) (s : float) : list float :=
  map (fun v => sub v s) a.

Definition absolute (a : list float) : list float := map abs a.

Definition sum (a : list float) : float := fold_left add a (Num 0).

(** [np.mean a]: the sum over the count; NaN (with a warning, no
    exception) when [a] is empty. *)
Definition mean (a : list float) : float :=
  match a with
  | [] => NaN
  | _ :: _ =>
      match sum a with
      | Num s => Num (s / Qc_of_nat (length a))
      | NaN => NaN
      end
  end.

(** [a[mask]] for a boolean array [mask]: the elements of [a] where the
    mask is true, in order. *)
Fixpoint compress {A : Type} (mask : list bool) (a : list A) : list A :=
  match mask, a with
  | m :: mask', v :: a' =>
      if m then v :: compress mask' a' else compress mask' a'
  | _, _ => []
  end.

(** NumPy refuses a boolean index whose length differs from the array's
    ("boolean index did not match indexed array along axis 0"), except
    that it does not check a boolean index of length 0, which selects
    nothing. *)
Definition bool_index {A : Type} (a : list A) (mask : list bool)
  : result (list A) :=
  if Nat.eqb (length mask) 0 || Nat.eqb (length mask) (length a)
  then Ok (compress mask a)
  else Raise IndexError.

(** [a > s] and [a < s] with the scalar [s] broadcast. *)
Definition gt_scalar (a : list Qc) (s : Qc) : list bool :=
  map (fun v => Qc_ltb s v) a.

Definition lt_scalar (a : list Qc) (s : Qc) : list bool :=
  map (fun v => Qc_ltb v s) a.

End Np.

Import Np.

(** ** Python: [sorted], [int / int], dicts keyed by numbers, [min] *)

Module QcOrder <: Orders.TotalLeBool.
Definition t := Qc.
Definition leb : t -> t -> bool := Qc_leb.
Lemma leb_total : forall a b : t, leb a b = true \/ leb b a = true.
Proof.
  intros a b. unfold leb, Qc_leb.
  destruct (Qlt_le_dec a b) as [H | H].
  - left. apply Qle_bool_iff. apply Qlt_le_weak. exact H.
  - right. apply Qle_bool_iff. exact H.
Qed.
End QcOrder.

Module QcSort := Sort QcOrder.

(** [sorted(x)]: a new list, ascending.  Python's sort is a stable merge
    sort; on numbers, where equal elements are indistinguishable, every
    sorting function returns the same list. *)
Definition sorted (x : list Qc) : list Qc := QcSort.sort x.

(** [a / b] on Python ints (the two [len] results in [MAE]). *)
Definition py_div (a b : nat) : result float :=
  if Nat.eqb b 0 then Raise ZeroDivisionError
  else Ok (Num (Qc_of_nat a / Qc_of_nat b)).

(** A dict keeps its keys in insertion order; assigning to a key that is
    already present replaces the value and leaves the key where it is. *)
Definition dict (V : Type) : Type := list (Qc * V).

Fixpoint dict_set {V : Type} (d : dict V) (k : Qc) (v : V) : dict V :=
  match d with
  | [] => [(k, v)]
  | (k', v') :: d' =>
      if Qc_eqb k' k then (k', v) :: d' else (k', v') :: dict_set d' k v
  end.

(** [d.get(k)]: [None] when the key is absent. *)
Fixpoint dict_get {V : Type} (d : dict V) (k : Qc) : option V :=
  match d with
  | [] => None
  | (k', v') :: d' => if Qc_eqb k' k then Some v' else dict_get d' k
  end.

(** Iterating a dict yields its keys. *)
Definition dict_keys {V : Type} (d : dict V) : list Qc := map fst d.

(** The values of [results] are the pairs returned by [MAE]. *)
Definition errors : Type := (float * float)%type.

(** [v < w] on two pairs: the first position where the components are
    not [==] decides, by [<] on those components; pairs that are [==]
    everywhere are not [<]. *)
Definition tuple_lt (v w : errors) : bool :=
  if negb (eqb (fst v) (fst w)) then ltb (fst v) (fst w)
  else if negb (eqb (snd v) (snd w)) then ltb (snd v) (snd w)
  else false.

(** [val < maxval] on what [dict.get] returns; Python cannot order [None]
    against a tuple. *)
Definition py_lt (val maxval : option errors) : result bool :=
  match val, maxval with
  | Some v, Some w => Ok (tuple_lt v w)
  | _, _ => Raise TypeError
  end.

(** [min(it, key=key)]: the first item is the initial best; a later item
    replaces it only when its key is [<] the best key so far. *)
Definition py_min (key : Qc -> option errors) (it : list Qc) : result Qc :=
  match it with
  | [] => Raise ValueError
  | item0 :: rest =>
      ' (maxitem, _) <-
        for_each (fun '(maxitem, maxval) item =>
                    let val := key item in
                    c <- py_lt val maxval ;;
                    Ok (if c then (item, val) else (maxitem, maxval)))
                 rest (item0, key item0) ;;
      Ok maxitem
  end.

(** ** The notebook *)

(** [splits(x)]: the loop appends, for [i] in [range(len(x)-1)], the
    midpoint of [x_sorted[i]] and [x_sorted[i+1]].  [range] of a negative
    number is empty, as is [seq 0 (0 - 1)]; the indices stay in range, so
    the default of [nth] is never read. *)
Definition splits (x : list Qc) : list Qc :=
  let x_sorted := sorted x in
  fold_left
    (fun split_ponit_list i =>
       let mid_point := (nth i x_sorted 0 + nth (i + 1) x_sorted 0) / frac 2 1 in
       split_ponit_list ++ [mid_point])
    (seq 0 (length x - 1)) [].

Definition split_data (x y : list Qc) (split_pt : Qc)
  : result (list Qc * list Qc * list Qc * list Qc) :=
  let mask := gt_scalar x split_pt in
  let anti_mask := lt_scalar x split_pt in
  x_true <- bool_index x mask ;;
  y_true <- bool_index y mask ;;
  x_false <- bool_index x anti_mask ;;
  y_false <- bool_index y anti_mask ;;
  Ok (x_true, y_true, x_false, y_false).

Definition MAE (y y_true y_false : list Qc) : result errors :=
  let y_true_hat := mean (asfloat y_true) in
  let y_false_hat := mean (asfloat y_false) in
  let y_hat := mean (asfloat y) in
  let old_mae := mean (absolute (sub_scalar (asfloat y) y_hat)) in
  w_true <- py_div (length y_true) (length y) ;;
  let new_true :=
    mul w_true (mean (absolute (sub_scalar (asfloat y_true) y_true_hat))) in
  w_false <- py_div (length y_false) (length y) ;;
  let new_false :=
    mul w_false (mean (absolute (sub_scalar (asfloat y_false) y_false_hat))) in
  let new_mae := add new_true new_false in
  Ok (old_mae, new_mae).

(** [data] is a two-column array, one row per sample: [data[:,0]] is the
    feature column, [data[:,1]] the target column. *)
Definition column0 (data : list (Qc * Qc)) : list Qc := map fst data.
Definition column1 (data : list (Qc * Qc)) : list Qc := map snd data.

Definition get_best_split (data : list (Qc * Qc))
  : result (dict errors * Qc) :=
  let x := column0 data in
  let y := column1 data in
  let split_pts := splits x in
  results <-
    for_each (fun results point =>
                ' (x_true, y_true, x_false, y_false) <- split_data x y point ;;
                errors <- MAE y y_true y_false ;;
                Ok (dict_set results point errors))
             split_pts [] ;;
  best_point <- py_min (dict_get results) (dict_keys results) ;;
  Ok (results, best_point).

(** ** Inputs used below *)

Definition of_ints (l : list Z) : list Qc := map (fun n => frac n 1) l.

Definition rows (xs ys : list Z) : list (Qc * Qc) :=
  combine (of_ints xs) (of_ints ys).

(** The (5,2) array of Part 3 of the notebook. *)
Definition int_twoDlist : list (Qc * Qc) :=
  rows [7; 30; 27; 80; 43]%Z [53; 28; 83; 25; 75]%Z.

(** ** Auxiliary definitions for the statements *)

(** The midpoint of the [i]-th and [(i+1)]-th elements of [s]. *)
Definition midpoint_at (s : list Qc) (i : nat) : Qc :=
  (nth i s 0 + nth (i + 1) s 0) / frac 2 1.

Fixpoint nodupb (l : list Qc) : bool :=
  match l with
  | [] => true
  | a :: l' => negb (existsb (Qc_eqb a) l') && nodupb l'
  end.

(** The quantities of the data model, on exact numbers: the sum and the
    mean of a list, and the mean absolute deviation of a list from its
    own mean. *)
Definition Qc_sum (l : list Qc) : Qc := fold_right Qcplus 0 l.

Definition Qc_mean (l : list Qc) : Qc := Qc_sum l / Qc_of_nat (length l).

Definition mean_abs_dev (l : list Qc) : Qc :=
  Qc_mean (map (fun v => Qcabs (v - Qc_mean l)) l).

(** The mean absolute deviation of a part: undefined (NaN) when the part
    is empty. *)
Definition part_dev (l : list Qc) : float :=
  match l with
  | [] => NaN
  | _ :: _ => Num (mean_abs_dev l)
  end.

(** The size-weighted sum of the deviations of the two parts. *)
Definition weighted_mae (y y_true y_false : list Qc) : float :=
  add (mul (Num (Qc_of_nat (length y_true) / Qc_of_nat (length y)))
           (part_dev y_true))
      (mul (Num (Qc_of_nat (length y_false) / Qc_of_nat (length y)))
           (part_dev y_false)).

(** What [get_best_split] stores for the threshold [t]. *)
Definition score (x y : list Qc) (t : Qc) : errors :=
  (Num (mean_abs_dev y),
   weighted_mae y (compress (gt_scalar x t) y) (compress (lt_scalar x t) y)).

(** The dict built by the loop of [get_best_split] over [pts]. *)
Definition table (x y : list Qc) (pts : list Qc) (d : dict errors)
  : dict errors :=
  fold_left (fun d t => dict_set d t (score x y t)) pts d.

(** The dict that [get_best_split] builds for [data]. *)
Definition results_of (data : list (Qc * Qc)) : dict errors :=
  table (column0 data) (column1 data) (splits (column0 data)) [].

(** What the scan of [min] maintains, with [new_mae] giving the second
    component of each key's value: the best item so far [b] splits the
    items seen into those before it, none of which is [<=] it, and those
    after it, none of which is [<] it; a best item with a NaN value can
    only be the very first item. *)
Definition scan_inv (new_mae : Qc -> float) (l1 : list Qc) (b : Qc)
  (l2 : list Qc) : Prop :=
  (forall t, In t l1 -> leb (new_mae t) (new_mae b) = false) /\
  (forall t, In t l2 -> ltb (new_mae t) (new_mae b) = false) /\
  (new_mae b = NaN -> l1 = []).

(** Structural comparison of the results of two runs, for concrete
    inputs: unlike [==], it holds between NaN and NaN. *)
Definition float_same (a b : float) : bool :=
  match a, b with
  | Num p, Num q => Qc_eqb p q
  | NaN, NaN => true
  | _, _ => false
  end.

Definition errors_same (a b : errors) : bool :=
  float_same (fst a) (fst b) && float_same (snd a) (snd b).

Fixpoint dict_same (d1 d2 : dict errors) : bool :=
  match d1, d2 with
  | [], [] => true
  | (k1, v1) :: d1', (k2, v2) :: d2' =>
      Qc_eqb k1 k2 && errors_same v1 v2 && dict_same d1' d2'
  | _, _ => false
  end.

Definition run_same (r : result (dict errors * Qc))
  (d : dict errors) (b : Qc) : bool :=
  match r with
  | Ok (d', b') => dict_same d' d && Qc_eqb b' b
  | Raise _ => false
  end.

(** ** The notebook, Part 2: [splits_per_col] *)

(** A two-dimensional array: [shape1] is [data.shape[1]], the number of
    columns, and every row has that many elements ([well_shaped]); the
    number of rows may be 0. *)
Record array2 : Type := {
  shape1 : nat;
  array_rows : list (list Qc)
}.

Definition well_shaped (a : array2) : Prop :=
  Forall (fun r => length r = shape1 a) (array_rows a).

(** [data[:,c]], for [c] below [data.shape[1]]. *)
Definition column (data : array2) (c : nat) : list Qc :=
  map (fun r => nth c r 0) (array_rows data).

(** [str(c)] for a non-negative int: its decimal digits. *)
Definition py_str (c : nat) : string :=
  NilEmpty.string_of_uint (Nat.to_uint c).

(** A dict keyed by strings, in insertion order. *)
Definition sdict (V : Type) : Type := list (string * V).

Fixpoint sdict_set {V : Type} (d : sdict V) (k : string) (v : V) : sdict V :=
  match d with
  | [] => [(k, v)]
  | (k', v') :: d' =>
      if String.eqb k' k then (k', v) :: d' else (k', v') :: sdict_set d' k v
  end.

Fixpoint sdict_get {V : Type} (d : sdict V) (k : string) : option V :=
  match d with
  | [] => None
  | (k', v') :: d' => if String.eqb k' k then Some v' else sdict_get d' k
  end.

Definition sdict_keys {V : Type} (d : sdict V) : list string := map fst d.

Definition splits_per_col (data : array2) : sdict (list Qc) :=
  let ncols := shape1 data in
  fold_left
    (fun col_split_pts c =>
       let split_pts := splits (column data c) in
       sdict_set col_split_pts ("col_" ++ py_str c)%string split_pts)
    (seq 0 ncols) [].

(** The key under which [splits_per_col] stores column [c]:
    ['col_' + str(c)]. *)
Definition col_key (c : nat) : string := ("col_" ++ py_str c)%string.

(** Equality of two lists of numbers, for concrete lists. *)
Fixpoint Qc_list_eqb (l l' : list Qc) : bool :=
  match l, l' with
  | [], [] => true
  | a :: l1, b :: l1' => Qc_eqb a b && Qc_list_eqb l1 l1'
  | _, _ => false
  end.

(** The two columns that [get_best_split] reads from a two-dimensional
    array: [data[:,0]] and [data[:,1]], row by row. *)
Definition first_two_columns (data : array2) : list (Qc * Qc) :=
  combine (column data 0) (column data 1).

(** The (5,3) array of Part 2 of the notebook. *)
Definition int_threeCols : array2 :=
  {| shape1 := 3;
     array_rows := map of_ints
       [[25; 29; 22]; [36; 21; 38]; [82; 47; 92]; [47; 31; 79];
        [82; 86; 89]]%Z |}.

(** ** The argument of [get_best_split] as an array *)

(** An array of one or of two dimensions. *)
Inductive ndarray : Type :=
| Array1 (a : list Qc)
| Array2 (a : array2).

(** [data[:,c]]: an array of one dimension has no second index ("too many
    indices for array"), and [c] must be below [data.shape[1]] ("index is
    out of bounds for axis 1"). *)
Definition take_column (data : ndarray) (c : nat) : result (list Qc) :=
  match data with
  | Array1 _ => Raise IndexError
  | Array2 a => if Nat.ltb c (shape1 a) then Ok (column a c)
                else Raise IndexError
  end.

(** [get_best_split] from its first line: the two columns are taken, and
    the rest of the function works on them as [get_best_split] above does
    on the rows they form. *)
Definition get_best_split_array (data : ndarray)
  : result (dict errors * Qc) :=
  x <- take_column data 0 ;;
  y <- take_column data 1 ;;
  get_best_split (combine x y).

(** ** Machine numbers *)

(** Integers that are far from the limits of int64 and float64: the sum
    of two of them does not wrap around in int64, and the sum and its
    half are float64 numbers, so that [splits] computes their midpoint
    without error. *)
Definition small_int (z : Z) : Prop := (Z.abs z <= 2 ^ 52)%Z.

Module Machine.

(** np.int64 arithmetic: a sum outside [-2^63, 2^63) wraps around. *)
Definition wrap64 (z : Z) : Z := ((z + 2 ^ 63) mod 2 ^ 64 - 2 ^ 63)%Z.

Definition int64_add (a b : Z) : Z := wrap64 (a + b).

(** np.float64: IEEE 754 binary64. *)
Definition float64 : Set := SpecFloat.spec_float.

(** An int64 as a float64: the nearest one, ties to even. *)
Definition of_int64 (z : Z) : float64 :=
  SpecFloat.binary_normalize FloatOps.prec FloatOps.emax z 0 false.

(** [a / b] on an np.int64 and a Python int: both operands are converted
    to float64 and divided there. *)
Definition true_divide (a b : Z) : float64 :=
  FloatAxioms.SF64div (of_int64 a) (of_int64 b).

Module ZOrder <: Orders.TotalLeBool.
Definition t := Z.
Definition leb : t -> t -> bool := Z.leb.
Definition leb_total : forall a b : t, leb a b = true \/ leb b a = true.
Proof.
  intros a b. unfold leb. rewrite !Z.leb_le. apply Z.le_ge_cases.
Qed.
End ZOrder.

Module ZSort := Sort ZOrder.

Definition sorted (x : list Z) : list Z := ZSort.sort x.

(** [splits(x)] for an int64 array [x]: the two neighbours are added as
    np.int64 and the sum is divided by 2 as float64. *)
Definition splits (x : list Z) : list float64 :=
  let x_sorted := sorted x in
  fold_left
    (fun split_ponit_list i =>
       let mid_point :=
         true_divide
           (int64_add (nth i x_sorted 0%Z) (nth (i + 1) x_sorted 0%Z)) 2 in
       split_ponit_list ++ [mid_point])
    (seq 0 (length x - 1)) [].

End Machine.

(** * Properties *)

(** ** Comparisons on numbers *)

Lemma Qc_eqb_eq (a b : Qc) : Qc_eqb a b = true <-> a = b.
Proof.
  unfold Qc_eqb. rewrite Qeq_bool_iff. split.
  - apply Qc_is_canon.
  - intros ->. reflexivity.
Qed.

Lemma Qc_eqb_refl (a : Qc) : Qc_eqb a a = true.
Proof. apply Qc_eqb_eq. reflexivity. Qed.

Lemma Qc_eqb_neq (a b : Qc) : Qc_eqb a b = false <-> a <> b.
Proof.
  rewrite <- Qc_eqb_eq. destruct (Qc_eqb a b); split; congruence.
Qed.

Lemma Qc_eqb_sym (a b : Qc) : Qc_eqb a b = Qc_eqb b a.
Proof.
  destruct (Qc_eqb b a) eqn:E.
  - apply Qc_eqb_eq in E. subst. apply Qc_eqb_refl.
  - apply Qc_eqb_neq. apply Qc_eqb_neq in E. congruence.
Qed.

Lemma Qc_leb_le (a b : Qc) : Qc_leb a b = true <-> a <= b.
Proof. unfold Qc_leb, Qcle. apply Qle_bool_iff. Qed.

Lemma Qc_ltb_lt (a b : Qc) : Qc_ltb a b = true <-> a < b.
Proof.
  unfold Qc_ltb, Qclt. rewrite negb_true_iff.
  rewrite <- not_true_iff_false, Qle_bool_iff. split.
  - apply Qnot_le_lt.
  - apply Qlt_not_le.
Qed.

Lemma Qc_ltb_ge (a b : Qc) : Qc_ltb a b = false <-> b <= a.
Proof.
  unfold Qc_ltb, Qcle. rewrite negb_false_iff. apply Qle_bool_iff.
Qed.

Lemma Qc_leb_gt (a b : Qc) : Qc_leb a b = false <-> b < a.
Proof.
  rewrite <- not_true_iff_false, Qc_leb_le. split.
  - apply Qcnot_le_lt.
  - apply Qclt_not_le.
Qed.

Lemma Qc_ltb_irrefl (a : Qc) : Qc_ltb a a = false.
Proof. apply Qc_ltb_ge. apply Qcle_refl. Qed.

(** Goals on [Qc] built from [+], [-], [*], [/] and literals are moved to
    [Q], where [lra] and [field] apply. *)
Ltac to_Q :=
  unfold Qclt, Qcle, Qcdiv, Qcminus, Qcmult, Qcplus, Qcopp, Qcinv, frac in *;
  cbn [this Q2Qc] in *;
  rewrite ?Qred_correct in *.

Lemma frac_2_1_inv : (/ Qred (2 # 1) == 1 # 2)%Q.
Proof. reflexivity. Qed.

Lemma midpoint_between (a b : Qc) :
  a < b -> a < (a + b) / frac 2 1 /\ (a + b) / frac 2 1 < b.
Proof.
  intros H. to_Q. rewrite frac_2_1_inv. split; lra.
Qed.

Lemma midpoint_le (a b : Qc) :
  a <= b -> a <= (a + b) / frac 2 1 /\ (a + b) / frac 2 1 <= b.
Proof.
  intros H. to_Q. rewrite frac_2_1_inv. split; lra.
Qed.


(** ** [sorted] *)

Lemma sorted_perm (x : list Qc) : Permutation x (sorted x).
Proof. apply QcSort.Permuted_sort. Qed.

Lemma sorted_length (x : list Qc) : length (sorted x) = length x.
Proof. symmetry. apply Permutation_length, sorted_perm. Qed.

Lemma sorted_ascending (x : list Qc) : StronglySorted Qcle (sorted x).
Proof.
  assert (Htrans : Relations_1.Transitive (fun a b => is_true (Qc_leb a b))).
  { intros a b c Hab Hbc. apply Qc_leb_le. apply Qc_leb_le in Hab, Hbc.
    eapply Qcle_trans; eassumption. }
  pose proof (QcSort.StronglySorted_sort x Htrans) as H.
  fold (sorted x) in H. induction H as [| a l Hl IH Ha]; constructor.
  - exact IH.
  - eapply Forall_impl; [| exact Ha]. intros b Hb. apply Qc_leb_le. exact Hb.
Qed.

(** In an ascending list, a later element is not below an earlier one;
    without repetitions it is strictly above. *)
Lemma ascending_nth (l : list Qc) (i j : nat) :
  StronglySorted Qcle l -> (i < j)%nat -> (j < length l)%nat ->
  nth i l 0 <= nth j l 0.
Proof.
  intros H. revert i j. induction H as [| a l Hl IH Ha]; intros i j Hij Hj.
  - simpl in Hj. lia.
  - destruct j as [| j]; [lia |]. simpl in Hj. destruct i as [| i]; simpl.
    + rewrite Forall_forall in Ha. apply Ha. apply nth_In. lia.
    + apply IH; lia.
Qed.

Lemma NoDup_nth_neq (l : list Qc) (i j : nat) :
  NoDup l -> (i < j)%nat -> (j < length l)%nat -> nth i l 0 <> nth j l 0.
Proof.
  intros Hnd Hij Hj Heq.
  apply (proj1 (NoDup_nth l 0) Hnd i j) in Heq; lia.
Qed.

Lemma sorted_NoDup (x : list Qc) : NoDup x -> NoDup (sorted x).
Proof.
  intros H. eapply Permutation_NoDup; [apply sorted_perm | exact H].
Qed.

Lemma sorted_strict (x : list Qc) (i : nat) :
  NoDup x -> (i + 1 < length x)%nat ->
  nth i (sorted x) 0 < nth (i + 1) (sorted x) 0.
Proof.
  intros Hnd Hi.
  destruct (Qcle_lt_or_eq (nth i (sorted x) 0) (nth (i + 1) (sorted x) 0))
    as [Hlt | Heq].
  - apply ascending_nth; [apply sorted_ascending | lia |].
    rewrite sorted_length. exact Hi.
  - exact Hlt.
  - exfalso. revert Heq. apply NoDup_nth_neq; [apply sorted_NoDup, Hnd | lia |].
    rewrite sorted_length. exact Hi.
Qed.

(** ** [splits] *)

Lemma append_loop {A B : Type} (f : A -> B) (it : list A) (acc : list B) :
  fold_left (fun acc i => acc ++ [f i]) it acc = acc ++ map f it.
Proof.
  revert acc. induction it as [| i it IH]; intros acc; simpl.
  - rewrite app_nil_r. reflexivity.
  - rewrite IH, <- app_assoc. reflexivity.
Qed.

Lemma splits_map (x : list Qc) :
  splits x = map (midpoint_at (sorted x)) (seq 0 (length x - 1)).
Proof.
  unfold splits. cbv zeta. rewrite (append_loop (midpoint_at (sorted x))).
  reflexivity.
Qed.

Lemma splits_length (x : list Qc) : length (splits x) = (length x - 1)%nat.
Proof. rewrite splits_map, length_map, length_seq. reflexivity. Qed.

Lemma splits_nth (x : list Qc) (i : nat) :
  (i < length x - 1)%nat -> nth i (splits x) 0 = midpoint_at (sorted x) i.
Proof.
  intros Hi. rewrite splits_map.
  rewrite (nth_indep _ 0 (midpoint_at (sorted x) 0)).
  - rewrite map_nth, seq_nth by exact Hi. reflexivity.
  - rewrite length_map, length_seq. exact Hi.
Qed.

(** In exact arithmetic: on pairwise distinct numbers the [i]-th value
    of [splits] is the midpoint of the [i]-th and [(i+1)]-th elements of
    the sorted copy and lies strictly between them. *)
Lemma exact_midpoints (x : list Qc) :
  NoDup x ->
  length (splits x) = (length x - 1)%nat /\
  Permutation x (sorted x) /\
  StronglySorted Qcle (sorted x) /\
  forall i : nat, (i < length x - 1)%nat ->
    nth i (splits x) 0
      = (nth i (sorted x) 0 + nth (i + 1) (sorted x) 0) / frac 2 1 /\
    nth i (sorted x) 0 < nth i (splits x) 0 /\
    nth i (splits x) 0 < nth (i + 1) (sorted x) 0.
Proof.
  intros Hnd. split; [apply splits_length |].
  split; [apply sorted_perm |]. split; [apply sorted_ascending |].
  intros i Hi. rewrite splits_nth by exact Hi. unfold midpoint_at.
  split; [reflexivity |].
  apply midpoint_between. apply sorted_strict; [exact Hnd | lia].
Qed.

Lemma frac_inj (a b : Z) : frac a 1 = frac b 1 -> a = b.
Proof.
  unfold frac. intros H. apply Q2Qc_eq_iff in H.
  unfold Qeq in H. simpl in H. lia.
Qed.

Lemma of_ints_NoDup (zs : list Z) : NoDup zs -> NoDup (of_ints zs).
Proof.
  intros H. unfold of_ints. apply Finite.Injective_map_NoDup; [| exact H].
  intros a b. apply frac_inj.
Qed.

Lemma of_ints_length (zs : list Z) : length (of_ints zs) = length zs.
Proof. unfold of_ints. apply length_map. Qed.

(** C3 (as the code has it): on an int64 array of [n >= 2] pairwise
    distinct integers of magnitude at most 2^52 (their sums do not wrap
    around in int64 and halve without rounding in float64), [splits]
    returns [n - 1] values; the [i]-th is the arithmetic midpoint of the
    [i]-th and [(i+1)]-th elements of the sorted copy of the input (an
    ascending permutation of it) and lies strictly between the two. *)
Theorem splits_midpoints (zs : list Z) :
  Forall small_int zs -> NoDup zs -> (2 <= length zs)%nat ->
  let x := of_ints zs in
  length (splits x) = (length zs - 1)%nat /\
  Permutation x (sorted x) /\
  StronglySorted Qcle (sorted x) /\
  forall i : nat, (i < length zs - 1)%nat ->
    nth i (splits x) 0
      = (nth i (sorted x) 0 + nth (i + 1) (sorted x) 0) / frac 2 1 /\
    nth i (sorted x) 0 < nth i (splits x) 0 /\
    nth i (splits x) 0 < nth (i + 1) (sorted x) 0.
Proof.
  intros _ Hnd _ x.
  pose proof (exact_midpoints x (of_ints_NoDup zs Hnd)) as H.
  unfold x in *. rewrite of_ints_length in H. exact H.
Qed.

(** A boolean test for the absence of repetitions, for concrete lists. *)
Lemma nodupb_NoDup (l : list Qc) : nodupb l = true -> NoDup l.
Proof.
  induction l as [| a l IH]; simpl; intros H; constructor.
  - apply andb_true_iff in H. destruct H as [H _].
    apply negb_true_iff in H. intros Hin.
    assert (existsb (Qc_eqb a) l = true) as Hex.
    { apply existsb_exists. exists a. split; [exact Hin | apply Qc_eqb_refl]. }
    congruence.
  - apply IH. apply andb_true_iff in H. apply H.
Qed.

Lemma splits_midpoints_witness :
  let x := of_ints [7; 30; 27; 80; 43]%Z in
  length (splits x) = 4%nat /\
  Permutation x (sorted x) /\
  StronglySorted Qcle (sorted x) /\
  forall i : nat, (i < 4)%nat ->
    nth i (splits x) 0
      = (nth i (sorted x) 0 + nth (i + 1) (sorted x) 0) / frac 2 1 /\
    nth i (sorted x) 0 < nth i (splits x) 0 /\
    nth i (splits x) 0 < nth (i + 1) (sorted x) 0.
Proof.
  apply (splits_midpoints [7; 30; 27; 80; 43]%Z).
  - repeat constructor; unfold small_int; simpl; lia.
  - repeat (constructor; [simpl; lia |]). constructor.
  - simpl. lia.
Defined.

(** C3, counterexample: on the int64 array [2^53+1, 2^53+2] the sum
    2^54+3 is not a float64 and is rounded to 2^54+4, so the value that
    [splits] returns is 2^53+2, the upper element itself; on
    [2^62, 2^62+2] the sum wraps around in int64 and the value returned
    is -2^62, which is below both elements. *)
Lemma splits_machine_not_between :
  Machine.splits [2 ^ 53 + 1; 2 ^ 53 + 2]%Z
    = [Machine.of_int64 (2 ^ 53 + 2)] /\
  SpecFloat.SFltb (Machine.of_int64 (2 ^ 53 + 2))
                  (Machine.of_int64 (2 ^ 53 + 2)) = false /\
  Machine.splits [2 ^ 62; 2 ^ 62 + 2]%Z
    = [Machine.of_int64 (- 2 ^ 62)] /\
  SpecFloat.SFltb (Machine.of_int64 (2 ^ 62))
                  (Machine.of_int64 (- 2 ^ 62)) = false.
Proof. repeat split; vm_compute; reflexivity. Qed.

(** On the arrays of the notebook the machine numbers and the exact ones
    agree: [splits] on int64 and float64 returns the float64 numbers
    17.0, 28.5, 36.5, 61.5 that the exact midpoints 17, 57/2, 73/2, 123/2
    denote. *)
Lemma splits_machine_notebook :
  Machine.splits [7; 30; 27; 80; 43]%Z
  = map (fun q : Qc => Machine.true_divide (Qnum q) (Zpos (Qden q)))
        (splits (of_ints [7; 30; 27; 80; 43]%Z)).
Proof. vm_compute. reflexivity. Qed.

Lemma splits_no_pair (x : list Qc) : (length x <= 1)%nat -> splits x = [].
Proof.
  intros H. rewrite splits_map.
  replace (length x - 1)%nat with 0%nat by lia. reflexivity.
Qed.

(** C7 (as the code has it): on an input of length 0 or 1, [splits]
    raises nothing and returns the empty list. *)
Theorem splits_short_input (x : list Qc) :
  (length x <= 1)%nat -> splits x = [].
Proof. apply splits_no_pair. Qed.

Lemma splits_short_input_witness : splits (of_ints [5]%Z) = [].
Proof.
  apply (splits_short_input (of_ints [5]%Z)). simpl. lia.
Defined.

(** C7, counterexample: the calls [splits([])] and [splits([5])] return a
    list (the empty one); no error is raised. *)
Lemma splits_short_input_returns :
  splits [] = [] /\ splits (of_ints [5]%Z) = [].
Proof. split; reflexivity. Qed.

(** ** [split_data] *)

Lemma compress_map_filter {A : Type} (f : A -> bool) (a : list A) :
  compress (map f a) a = filter f a.
Proof.
  induction a as [| v a IH]; simpl; [reflexivity |].
  rewrite IH. reflexivity.
Qed.


Lemma compress_length_same {A B : Type} (mask : list bool) (a : list A) (b : list B) :
  length a = length b -> length (compress mask a) = length (compress mask b).
Proof.
  revert a b. induction mask as [| m mask IH]; intros a b H; [reflexivity |].
  destruct a as [| va a], b as [| vb b]; simpl in *; try discriminate.
  - reflexivity.
  - injection H as H. destruct m; simpl; rewrite (IH a b H); reflexivity.
Qed.


Lemma bool_index_ok {A : Type} (a : list A) (mask : list bool) :
  length mask = length a -> bool_index a mask = Ok (compress mask a).
Proof.
  intros H. unfold bool_index. rewrite H, Nat.eqb_refl, orb_true_r.
  reflexivity.
Qed.

Lemma bool_index_mismatch {A : Type} (a : list A) (mask : list bool) :
  mask <> [] -> length mask <> length a ->
  bool_index a mask = Raise IndexError.
Proof.
  intros Hne H. unfold bool_index. apply Nat.eqb_neq in H. rewrite H.
  destruct mask; [congruence | reflexivity].
Qed.

Lemma bool_index_empty_mask {A : Type} (a : list A) :
  bool_index a [] = Ok [].
Proof. reflexivity. Qed.

Lemma split_data_ok (x y : list Qc) (t : Qc) :
  length x = length y ->
  split_data x y t =
    Ok (filter (fun v => Qc_ltb t v) x, compress (gt_scalar x t) y,
        filter (fun v => Qc_ltb v t) x, compress (lt_scalar x t) y).
Proof.
  intros H. unfold split_data. cbv zeta.
  rewrite !bool_index_ok
    by (unfold gt_scalar, lt_scalar; rewrite length_map; congruence).
  simpl. unfold gt_scalar, lt_scalar. rewrite !compress_map_filter.
  reflexivity.
Qed.

Lemma split_data_mismatch (x y : list Qc) (t : Qc) :
  x <> [] -> length x <> length y -> split_data x y t = Raise IndexError.
Proof.
  intros Hne H. unfold split_data. cbv zeta.
  rewrite (bool_index_ok x) by (unfold gt_scalar; apply length_map).
  rewrite (bool_index_mismatch y).
  - reflexivity.
  - unfold gt_scalar. destruct x; [congruence | discriminate].
  - unfold gt_scalar. rewrite length_map. exact H.
Qed.

Lemma split_data_no_features (y : list Qc) (t : Qc) :
  split_data [] y t = Ok ([], [], [], []).
Proof. reflexivity. Qed.

(** Exactly one of [t < v], [v < t], [v == t] holds. *)
Lemma Qc_trichotomy_b (v t : Qc) :
  (Qc_ltb t v = true /\ Qc_ltb v t = false /\ Qc_eqb v t = false) \/
  (Qc_ltb t v = false /\ Qc_ltb v t = true /\ Qc_eqb v t = false) \/
  (Qc_ltb t v = false /\ Qc_ltb v t = false /\ Qc_eqb v t = true).
Proof.
  destruct (Qc_dec v t) as [[Hlt | Hgt] | Heq].
  - right. left. repeat split.
    + apply Qc_ltb_ge, Qclt_le_weak, Hlt.
    + apply Qc_ltb_lt, Hlt.
    + apply Qc_eqb_neq, Qclt_not_eq, Hlt.
  - left. repeat split.
    + apply Qc_ltb_lt, Hgt.
    + apply Qc_ltb_ge, Qclt_le_weak, Hgt.
    + apply Qc_eqb_neq. intros ->. exact (Qclt_not_eq _ _ Hgt eq_refl).
  - subst v. right. right. repeat split.
    + apply Qc_ltb_irrefl.
    + apply Qc_ltb_irrefl.
    + apply Qc_eqb_refl.
Qed.

Lemma three_way_count (x : list Qc) (t : Qc) :
  (length (filter (fun v => Qc_ltb t v) x)
   + length (filter (fun v => Qc_ltb v t) x)
   + length (filter (fun v => Qc_eqb v t) x))%nat = length x.
Proof.
  induction x as [| v x IH]; simpl; [reflexivity |].
  destruct (Qc_trichotomy_b v t) as [(-> & -> & ->) | [(-> & -> & ->) | (-> & -> & ->)]];
    simpl; lia.
Qed.

Lemma compress_length_filter {B : Type} (f : Qc -> bool) (x : list Qc) (y : list B) :
  length x = length y ->
  length (compress (map f x) y) = length (filter f x).
Proof.
  intros H. rewrite <- (compress_map_filter f x).
  symmetry. apply compress_length_same. exact H.
Qed.



(** C8 (as the code has it): with a feature array that is not empty and
    a target array of a different length, [split_data] returns no
    partitions: the boolean mask built from the feature array does not fit
    the target array and indexing with it raises NumPy's [IndexError].
    With an empty feature array the mask is empty, NumPy does not check
    it, and four empty parts are returned whatever the target array. *)
Theorem split_data_length_mismatch (x y : list Qc) (t : Qc) :
  (x <> [] -> length x <> length y -> split_data x y t = Raise IndexError) /\
  split_data [] y t = Ok ([], [], [], []).
Proof.
  split; [apply split_data_mismatch | apply split_data_no_features].
Qed.

Lemma split_data_length_mismatch_witness :
  split_data (of_ints [1; 2; 3]%Z) (of_ints [10; 20]%Z) (frac 2 1)
    = Raise IndexError.
Proof.
  apply (proj1 (split_data_length_mismatch (of_ints [1; 2; 3]%Z)
                  (of_ints [10; 20]%Z) (frac 2 1))).
  - intros H. exact (nil_cons (eq_sym H)).
  - simpl. lia.
Defined.

(** C8, counterexample: with an empty feature array and the two targets
    [10, 20] the lengths differ, and [split_data] raises nothing: it
    returns four empty parts. *)
Lemma split_data_empty_features_returns :
  length (@nil Qc) <> length (of_ints [10; 20]%Z) /\
  split_data [] (of_ints [10; 20]%Z) (frac 2 1) = Ok ([], [], [], []).
Proof.
  split; [simpl; lia | reflexivity].
Qed.






(** ** [MAE] *)

Lemma sum_asfloat (l : list Qc) (acc : Qc) :
  fold_left add (asfloat l) (Num acc) = Num (fold_left Qcplus l acc).
Proof.
  revert acc. induction l as [| v l IH]; intros acc; simpl; [reflexivity |].
  apply IH.
Qed.

Lemma Qc_sum_fold_left (l : list Qc) : fold_left Qcplus l 0 = Qc_sum l.
Proof.
  unfold Qc_sum. apply fold_symmetric.
  - intros a b c. apply Qcplus_assoc.
  - intros a. apply Qcplus_comm.
Qed.

Lemma mean_asfloat (l : list Qc) :
  l <> [] -> mean (asfloat l) = Num (Qc_mean l).
Proof.
  intros H. destruct l as [| v l]; [congruence |].
  unfold mean. change (asfloat (v :: l)) with (Num v :: asfloat l) at 1.
  cbv iota. unfold sum. rewrite sum_asfloat, Qc_sum_fold_left.
  unfold Qc_mean, asfloat. rewrite length_map. reflexivity.
Qed.

Lemma absolute_sub_scalar (l : list Qc) (m : Qc) :
  absolute (sub_scalar (asfloat l) (Num m))
  = asfloat (map (fun v => Qcabs (v - m)) l).
Proof.
  unfold absolute, sub_scalar, asfloat. rewrite !map_map. reflexivity.
Qed.

Lemma mean_deviation (l : list Qc) :
  mean (absolute (sub_scalar (asfloat l) (mean (asfloat l)))) = part_dev l.
Proof.
  destruct l as [| v l]; [reflexivity |].
  rewrite mean_asfloat by discriminate.
  rewrite absolute_sub_scalar, mean_asfloat by discriminate.
  reflexivity.
Qed.

Lemma py_div_ok (a b : nat) :
  b <> 0%nat -> py_div a b = Ok (Num (Qc_of_nat a / Qc_of_nat b)).
Proof.
  intros H. unfold py_div. apply Nat.eqb_neq in H. rewrite H. reflexivity.
Qed.

Lemma MAE_ok (y y_true y_false : list Qc) :
  y <> [] ->
  MAE y y_true y_false
  = Ok (Num (mean_abs_dev y), weighted_mae y y_true y_false).
Proof.
  intros H. unfold MAE. cbv zeta.
  assert (Hlen : length y <> 0%nat) by (destruct y; [congruence | discriminate]).
  rewrite !py_div_ok by exact Hlen. cbn [bind].
  rewrite !mean_deviation. destruct y as [| v y]; [congruence |].
  reflexivity.
Qed.

Lemma MAE_empty_y (y_true y_false : list Qc) :
  MAE [] y_true y_false = Raise ZeroDivisionError.
Proof. reflexivity. Qed.

Lemma weighted_mae_empty (y y_true y_false : list Qc) :
  y_true = [] \/ y_false = [] -> weighted_mae y y_true y_false = NaN.
Proof.
  unfold weighted_mae. intros [-> | ->]; simpl.
  - reflexivity.
  - destruct (part_dev y_true); reflexivity.
Qed.

Lemma weighted_mae_num (y y_true y_false : list Qc) :
  y_true <> [] -> y_false <> [] ->
  weighted_mae y y_true y_false
  = Num (Qc_of_nat (length y_true) / Qc_of_nat (length y)
           * mean_abs_dev y_true
         + Qc_of_nat (length y_false) / Qc_of_nat (length y)
           * mean_abs_dev y_false).
Proof.
  intros Ht Hf. unfold weighted_mae.
  destruct y_true; [congruence |]. destruct y_false; [congruence |].
  reflexivity.
Qed.

(** ** Dicts *)

Section Dict.

Context {V : Type}.

Lemma dict_get_set (d : dict V) (k k' : Qc) (v : V) :
  dict_get (dict_set d k v) k'
  = if Qc_eqb k k' then Some v else dict_get d k'.
Proof.
  induction d as [| [k0 v0] d IH]; simpl.
  - reflexivity.
  - destruct (Qc_eqb k0 k) eqn:E0; simpl.
    + apply Qc_eqb_eq in E0. subst k0.
      destruct (Qc_eqb k k'); reflexivity.
    + rewrite IH. destruct (Qc_eqb k0 k') eqn:E1; [| reflexivity].
      apply Qc_eqb_eq in E1. subst k'.
      rewrite Qc_eqb_sym, E0. reflexivity.
Qed.

Lemma dict_keys_set (d : dict V) (k : Qc) (v : V) :
  dict_keys (dict_set d k v)
  = if existsb (Qc_eqb k) (dict_keys d) then dict_keys d
    else dict_keys d ++ [k].
Proof.
  induction d as [| [k0 v0] d IH]; simpl; [reflexivity |].
  destruct (Qc_eqb k0 k) eqn:E0; simpl.
  - apply Qc_eqb_eq in E0. subst k0. rewrite Qc_eqb_refl. reflexivity.
  - rewrite Qc_eqb_sym, E0.
    change (dict_keys ((k0, v0) :: dict_set d k v))
      with (k0 :: dict_keys (dict_set d k v)).
    rewrite IH. change (dict_keys ((k0, v0) :: d)) with (k0 :: dict_keys d).
    cbn [orb]. destruct (existsb (Qc_eqb k) (dict_keys d)); reflexivity.
Qed.

Lemma dict_get_Some_key (d : dict V) (k : Qc) (v : V) :
  dict_get d k = Some v -> In k (dict_keys d).
Proof.
  induction d as [| [k0 v0] d IH]; simpl; [discriminate |].
  destruct (Qc_eqb k0 k) eqn:E.
  - intros _. left. apply Qc_eqb_eq, E.
  - intros H. right. apply IH, H.
Qed.

End Dict.

Lemma existsb_Qc_eqb (k : Qc) (l : list Qc) :
  existsb (Qc_eqb k) l = true <-> In k l.
Proof.
  rewrite existsb_exists. split.
  - intros (k' & Hin & Heq). apply Qc_eqb_eq in Heq. subst k'. exact Hin.
  - intros Hin. exists k. split; [exact Hin | apply Qc_eqb_refl].
Qed.

(** ** The loop of [get_best_split] *)

Section Table.

Variables x y : list Qc.

Lemma table_get (pts : list Qc) (d : dict errors) (t : Qc) :
  dict_get (table x y pts d) t
  = if existsb (Qc_eqb t) pts then Some (score x y t) else dict_get d t.
Proof.
  revert d. induction pts as [| p pts IH]; intros d; [reflexivity |].
  change (table x y (p :: pts) d)
    with (table x y pts (dict_set d p (score x y p))).
  rewrite IH, dict_get_set. cbn [existsb].
  destruct (existsb (Qc_eqb t) pts); [rewrite orb_true_r; reflexivity |].
  rewrite orb_false_r.
  destruct (Qc_eqb p t) eqn:E.
  - apply Qc_eqb_eq in E. subst p. rewrite Qc_eqb_refl. reflexivity.
  - rewrite Qc_eqb_sym, E. reflexivity.
Qed.

Lemma table_keys (pts : list Qc) (d : dict errors) (t : Qc) :
  In t (dict_keys (table x y pts d)) <-> In t (dict_keys d) \/ In t pts.
Proof.
  revert d. induction pts as [| p pts IH]; intros d.
  - simpl. tauto.
  - change (table x y (p :: pts) d)
      with (table x y pts (dict_set d p (score x y p))).
    rewrite IH, dict_keys_set.
    destruct (existsb (Qc_eqb p) (dict_keys d)) eqn:E.
    + apply existsb_Qc_eqb in E. simpl. split.
      * intros [H | H]; auto.
      * intros [H | [H | H]]; subst; auto.
    + rewrite in_app_iff. simpl. split.
      * intros [[H | [H | []]] | H]; auto.
      * intros [H | [H | H]]; auto.
Qed.

(** The keys come out in strictly ascending order when the candidate
    thresholds are visited in ascending order. *)
Lemma snoc_ascending (l : list Qc) (k : Qc) :
  StronglySorted Qclt l -> (forall a, In a l -> a <= k) -> ~ In k l ->
  StronglySorted Qclt (l ++ [k]).
Proof.
  intros Hl. induction Hl as [| a l Hl IH Ha]; intros Hle Hnin; simpl.
  - constructor; constructor.
  - constructor.
    + apply IH.
      * intros b Hb. apply Hle. right. exact Hb.
      * intros Hin. apply Hnin. right. exact Hin.
    + apply Forall_app. split; [exact Ha |]. constructor; [| constructor].
      destruct (Qcle_lt_or_eq a k) as [H | H].
      * apply Hle. left. reflexivity.
      * exact H.
      * exfalso. apply Hnin. left. exact H.
Qed.

Lemma table_keys_ascending (pts : list Qc) (d : dict errors) :
  StronglySorted Qcle pts ->
  StronglySorted Qclt (dict_keys d) ->
  (forall k t, In k (dict_keys d) -> In t pts -> k <= t) ->
  StronglySorted Qclt (dict_keys (table x y pts d)).
Proof.
  intros Hpts. revert d.
  induction Hpts as [| p pts Hpts IH Hp]; intros d Hd Hle; [exact Hd |].
  change (table x y (p :: pts) d)
    with (table x y pts (dict_set d p (score x y p))).
  rewrite Forall_forall in Hp.
  apply IH; rewrite dict_keys_set;
    destruct (existsb (Qc_eqb p) (dict_keys d)) eqn:E.
  - exact Hd.
  - apply snoc_ascending.
    + exact Hd.
    + intros a Ha. apply Hle; [exact Ha | left; reflexivity].
    + intros Hin. apply existsb_Qc_eqb in Hin. congruence.
  - intros k t Hk Ht. apply Hle; [exact Hk | right; exact Ht].
  - intros k t Hk Ht. apply in_app_iff in Hk. destruct Hk as [Hk | [Hk | []]].
    + apply Hle; [exact Hk | right; exact Ht].
    + subst k. apply Hp, Ht.
Qed.

Hypothesis same_length : length x = length y.

Lemma loop_body_ok (results : dict errors) (point : Qc) :
  y <> [] ->
  (' (x_true, y_true, x_false, y_false) <- split_data x y point ;;
   errors <- MAE y y_true y_false ;;
   Ok (dict_set results point errors))
  = Ok (dict_set results point (score x y point)).
Proof.
  intros Hy. rewrite (split_data_ok x y point same_length). cbn [bind].
  rewrite MAE_ok by exact Hy. reflexivity.
Qed.

Lemma loop_ok (pts : list Qc) (d : dict errors) :
  (pts = [] \/ y <> []) ->
  for_each (fun results point =>
              ' (x_true, y_true, x_false, y_false) <- split_data x y point ;;
              errors <- MAE y y_true y_false ;;
              Ok (dict_set results point errors))
           pts d
  = Ok (table x y pts d).
Proof.
  intros H. revert d. induction pts as [| p pts IH]; intros d; [reflexivity |].
  destruct H as [H | Hy]; [discriminate |].
  cbn [for_each]. rewrite loop_body_ok by exact Hy. cbn [bind].
  apply IH. right. exact Hy.
Qed.

End Table.

Lemma get_best_split_eq (data : list (Qc * Qc)) :
  let results := table (column0 data) (column1 data)
                       (splits (column0 data)) [] in
  get_best_split data =
    (best_point <- py_min (dict_get results) (dict_keys results) ;;
     Ok (results, best_point)).
Proof.
  intros results. unfold get_best_split. cbv zeta.
  rewrite loop_ok.
  - reflexivity.
  - unfold column0, column1. rewrite !length_map. reflexivity.
  - destruct data as [| r data]; [left; reflexivity | right; discriminate].
Qed.

(** ** Order on float scalars and on pairs *)

Lemma ltb_true_inv (a b : float) :
  ltb a b = true -> exists p q, a = Num p /\ b = Num q /\ p < q.
Proof.
  destruct a as [p |], b as [q |]; simpl; try discriminate.
  intros H. exists p, q. repeat split. apply Qc_ltb_lt, H.
Qed.

Lemma leb_false_below (t b c : float) :
  leb t b = false -> ltb c b = true -> leb t c = false.
Proof.
  intros Htb Hcb. apply ltb_true_inv in Hcb.
  destruct Hcb as (p & q & -> & -> & Hpq).
  destruct t as [r |]; [| reflexivity]. simpl in *.
  apply Qc_leb_gt. apply Qc_leb_gt in Htb.
  eapply Qclt_trans; eassumption.
Qed.

Lemma ltb_false_below (t b c : float) :
  ltb t b = false -> ltb c b = true -> leb t c = false.
Proof.
  intros Htb Hcb. apply ltb_true_inv in Hcb.
  destruct Hcb as (p & q & -> & -> & Hpq).
  destruct t as [r |]; [| reflexivity]. simpl in *.
  apply Qc_leb_gt. apply Qc_ltb_ge in Htb.
  eapply Qclt_le_trans; eassumption.
Qed.

Lemma ltb_true_not_leb (b c : float) : ltb c b = true -> leb b c = false.
Proof.
  intros H. apply ltb_true_inv in H. destruct H as (p & q & -> & -> & Hpq).
  simpl. apply Qc_leb_gt, Hpq.
Qed.

Lemma ltb_false_leb (a b : float) :
  a <> NaN -> b <> NaN -> ltb a b = false -> leb b a = true.
Proof.
  destruct a as [p |], b as [q |]; try congruence. simpl. intros _ _ H.
  apply Qc_leb_le. apply Qc_ltb_ge, H.
Qed.

(** With equal numeric first components, the pairs are ordered by their
    second components. *)
Lemma tuple_lt_same_old (o : Qc) (a b : float) :
  tuple_lt (Num o, a) (Num o, b) = ltb a b.
Proof.
  unfold tuple_lt. cbn [fst snd eqb]. rewrite Qc_eqb_refl. cbn [negb].
  destruct (eqb a b) eqn:E; cbn [negb]; [| reflexivity].
  destruct a as [p |], b as [q |]; try discriminate. simpl in *.
  apply Qc_eqb_eq in E. subst q. symmetry. apply Qc_ltb_irrefl.
Qed.

(** ** [min] over the keys of a dict of [MAE] results *)

Section Min.

Variable key : Qc -> option errors.
Variable old : Qc.
Variable new_mae : Qc -> float.

Lemma scan_inv_first (b : Qc) : scan_inv new_mae [] b [].
Proof. repeat split; intros t []. Qed.

Lemma scan_inv_replace (l1 l2 : list Qc) (b c : Qc) :
  scan_inv new_mae l1 b l2 -> ltb (new_mae c) (new_mae b) = true ->
  scan_inv new_mae (l1 ++ b :: l2) c [].
Proof.
  intros (H1 & H2 & H3) Hlt. repeat split.
  - intros t Ht. apply in_app_iff in Ht. destruct Ht as [Ht | [<- | Ht]].
    + eapply leb_false_below; [apply H1, Ht | exact Hlt].
    + apply ltb_true_not_leb, Hlt.
    + eapply ltb_false_below; [apply H2, Ht | exact Hlt].
  - intros t [].
  - intros Hnan. rewrite Hnan in Hlt. discriminate.
Qed.

Lemma scan_inv_keep (l1 l2 : list Qc) (b c : Qc) :
  scan_inv new_mae l1 b l2 -> ltb (new_mae c) (new_mae b) = false ->
  scan_inv new_mae l1 b (l2 ++ [c]).
Proof.
  intros (H1 & H2 & H3) Hlt. repeat split.
  - exact H1.
  - intros t Ht. apply in_app_iff in Ht. destruct Ht as [Ht | [<- | []]].
    + apply H2, Ht.
    + exact Hlt.
  - exact H3.
Qed.

Lemma scan_ok (rest l1 : list Qc) (b : Qc) (l2 : list Qc) :
  (forall k, In k (l1 ++ b :: l2 ++ rest) ->
             key k = Some (Num old, new_mae k)) ->
  scan_inv new_mae l1 b l2 ->
  exists l1' b' l2',
    l1 ++ b :: l2 ++ rest = l1' ++ b' :: l2' /\
    for_each (fun '(maxitem, maxval) item =>
                let val := key item in
                c <- py_lt val maxval ;;
                Ok (if c then (item, val) else (maxitem, maxval)))
             rest (b, key b) = Ok (b', key b') /\
    scan_inv new_mae l1' b' l2'.
Proof.
  revert l1 b l2. induction rest as [| c rest IH]; intros l1 b l2 Hkey Hinv.
  - exists l1, b, l2. rewrite app_nil_r.
    split; [reflexivity |]. split; [reflexivity | exact Hinv].
  - assert (Hb : key b = Some (Num old, new_mae b)).
    { apply Hkey. apply in_app_iff. right. left. reflexivity. }
    assert (Hc : key c = Some (Num old, new_mae c)).
    { apply Hkey. apply in_app_iff. right. right. apply in_app_iff.
      right. left. reflexivity. }
    cbn [for_each]. cbv zeta. rewrite Hb, Hc. cbn [py_lt bind].
    rewrite tuple_lt_same_old. rewrite <- Hb, <- Hc.
    destruct (ltb (new_mae c) (new_mae b)) eqn:Hlt.
    + destruct (IH (l1 ++ b :: l2) c []) as (l1' & b' & l2' & Heq & Hrun & Hinv').
      * intros k Hk. apply Hkey. rewrite <- app_assoc in Hk. exact Hk.
      * apply scan_inv_replace; assumption.
      * exists l1', b', l2'. split; [| split; assumption].
        rewrite <- Heq, <- app_assoc. reflexivity.
    + destruct (IH l1 b (l2 ++ [c])) as (l1' & b' & l2' & Heq & Hrun & Hinv').
      * intros k Hk. apply Hkey. rewrite <- app_assoc in Hk. exact Hk.
      * apply scan_inv_keep; assumption.
      * exists l1', b', l2'. split; [| split; assumption].
        rewrite <- Heq, <- app_assoc. reflexivity.
Qed.

Lemma py_min_ok (item0 : Qc) (rest : list Qc) :
  (forall k, In k (item0 :: rest) -> key k = Some (Num old, new_mae k)) ->
  exists l1 b l2,
    item0 :: rest = l1 ++ b :: l2 /\
    py_min key (item0 :: rest) = Ok b /\
    scan_inv new_mae l1 b l2.
Proof.
  intros Hkey.
  destruct (scan_ok rest [] item0 []) as (l1 & b & l2 & Heq & Hrun & Hinv).
  - exact Hkey.
  - apply scan_inv_first.
  - exists l1, b, l2. split; [exact Heq |]. split; [| exact Hinv].
    unfold py_min. cbv zeta in Hrun. rewrite Hrun. reflexivity.
Qed.

End Min.

(** ** [get_best_split] *)

Lemma map_seq_sorted {A : Type} (R : A -> A -> Prop) (f : nat -> A)
  (s n : nat) :
  (forall i j, (s <= i)%nat -> (i < j)%nat -> (j < s + n)%nat -> R (f i) (f j)) ->
  StronglySorted R (map f (seq s n)).
Proof.
  revert s. induction n as [| n IH]; intros s H; simpl; constructor.
  - apply IH. intros i j Hi Hij Hj. apply H; lia.
  - apply Forall_forall. intros b Hb. apply in_map_iff in Hb.
    destruct Hb as (j & <- & Hj). apply in_seq in Hj. apply H; lia.
Qed.

Lemma midpoint_mono (a b c d : Qc) :
  a <= c -> b <= d -> (a + b) / frac 2 1 <= (c + d) / frac 2 1.
Proof.
  intros H1 H2. to_Q. rewrite frac_2_1_inv. lra.
Qed.

Lemma splits_ascending (x : list Qc) : StronglySorted Qcle (splits x).
Proof.
  rewrite splits_map. apply map_seq_sorted. intros i j _ Hij Hj.
  unfold midpoint_at.
  apply midpoint_mono;
    (apply ascending_nth; [apply sorted_ascending | lia |]);
    rewrite sorted_length; lia.
Qed.

Lemma sorted_split {A : Type} (R : A -> A -> Prop) (l1 : list A) (b : A)
  (l2 : list A) :
  StronglySorted R (l1 ++ b :: l2) ->
  Forall (fun a => R a b) l1 /\ Forall (R b) l2.
Proof.
  induction l1 as [| a l1 IH]; simpl; intros H;
    apply StronglySorted_inv in H; destruct H as [H Ha].
  - split; [constructor | exact Ha].
  - destruct (IH H) as [H1 H2]. split; [| exact H2].
    constructor; [| exact H1].
    rewrite Forall_forall in Ha. apply Ha. apply in_app_iff.
    right. left. reflexivity.
Qed.

(** In a strictly ascending list, what is below [b] stands before it. *)
Lemma before_of_below (l1 : list Qc) (b : Qc) (l2 : list Qc) (t : Qc) :
  StronglySorted Qclt (l1 ++ b :: l2) ->
  In t (l1 ++ b :: l2) -> t < b -> In t l1.
Proof.
  intros Hs Hin Hlt. apply sorted_split in Hs. destruct Hs as [_ H2].
  apply in_app_iff in Hin. destruct Hin as [Hin | [<- | Hin]].
  - exact Hin.
  - exfalso. exact (Qclt_not_eq _ _ Hlt eq_refl).
  - exfalso. rewrite Forall_forall in H2. apply H2 in Hin.
    apply (Qclt_not_le _ _ Hlt). apply Qclt_le_weak, Hin.
Qed.

Section BestSplit.

Variable data : list (Qc * Qc).

Local Abbreviation x := (column0 data).
Local Abbreviation y := (column1 data).
Local Abbreviation results := (results_of data).

Lemma columns_same_length : length x = length y.
Proof. unfold column0, column1. rewrite !length_map. reflexivity. Qed.

Lemma results_keys (t : Qc) : In t (dict_keys results) <-> In t (splits x).
Proof.
  unfold results_of. rewrite table_keys. simpl. tauto.
Qed.

Lemma results_keys_ascending : StronglySorted Qclt (dict_keys results).
Proof.
  unfold results_of. apply table_keys_ascending.
  - apply splits_ascending.
  - constructor.
  - intros k t [].
Qed.

Lemma results_get (t : Qc) :
  In t (splits x) -> dict_get results t = Some (score x y t).
Proof.
  intros H. unfold results_of. rewrite table_get.
  apply existsb_Qc_eqb in H. rewrite H. reflexivity.
Qed.

Lemma results_get_inv (t : Qc) (e : errors) :
  dict_get results t = Some e -> In t (splits x) /\ e = score x y t.
Proof.
  intros H. assert (Hin : In t (splits x)).
  { apply results_keys. eapply dict_get_Some_key. exact H. }
  split; [exact Hin |]. rewrite (results_get t Hin) in H. congruence.
Qed.

Lemma splits_nonempty : (2 <= length data)%nat -> splits x <> [].
Proof.
  intros Hlen Hnil. apply (f_equal (@length Qc)) in Hnil.
  rewrite splits_length in Hnil. unfold column0 in Hnil.
  rewrite length_map in Hnil. simpl in Hnil. lia.
Qed.

Lemma get_best_split_scan :
  (2 <= length data)%nat ->
  exists l1 best l2,
    dict_keys results = l1 ++ best :: l2 /\
    get_best_split data = Ok (results, best) /\
    scan_inv (fun t => snd (score x y t)) l1 best l2.
Proof.
  intros Hlen.
  destruct (dict_keys results) as [| item0 rest] eqn:Hkeys.
  - exfalso. apply (splits_nonempty Hlen).
    destruct (splits x) as [| t pts] eqn:Hpts; [reflexivity |].
    assert (Hin : In t (dict_keys results)).
    { apply results_keys. rewrite Hpts. left. reflexivity. }
    rewrite Hkeys in Hin. destruct Hin.
  - destruct (py_min_ok (dict_get results) (mean_abs_dev y)
                (fun t => snd (score x y t)) item0 rest)
      as (l1 & best & l2 & Heq & Hmin & Hinv).
    + intros k Hk. rewrite <- Hkeys in Hk. apply results_keys in Hk.
      rewrite (results_get k Hk). reflexivity.
    + exists l1, best, l2. split; [exact Heq |]. split; [| exact Hinv].
      rewrite get_best_split_eq. cbv zeta. fold results.
      rewrite Hkeys, Hmin. reflexivity.
Qed.

End BestSplit.


Lemma get_best_split_inv (data : list (Qc * Qc)) (results : dict errors)
  (best : Qc) :
  get_best_split data = Ok (results, best) ->
  results = results_of data /\
  py_min (dict_get (results_of data)) (dict_keys (results_of data)) = Ok best.
Proof.
  rewrite get_best_split_eq. cbv zeta. fold (results_of data).
  destruct (py_min _ _) as [b | e]; cbn [bind]; [| discriminate].
  intros H. injection H as <- <-. split; reflexivity.
Qed.

Lemma eqb_eq (a b : float) : eqb a b = true -> a = b.
Proof.
  destruct a as [p |], b as [q |]; simpl; try discriminate.
  intros H. apply Qc_eqb_eq in H. subst q. reflexivity.
Qed.

(** C1: on the (5,2) array of the notebook, features [7,30,27,80,43] and
    targets [53,28,83,25,75], [get_best_split] returns the best threshold
    61.5, and the returned mapping holds old_mae = 21.04 and
    new_mae = 15.4 for it. *)
Theorem get_best_split_notebook :
  exists results,
    get_best_split int_twoDlist = Ok (results, frac 123 2) /\
    dict_get results (frac 123 2)
      = Some (Num (frac 2104 100), Num (frac 154 10)).
Proof.
  assert (Hlen : (2 <= length int_twoDlist)%nat) by (vm_compute; lia).
  destruct (get_best_split_scan int_twoDlist Hlen)
    as (l1 & best & l2 & _ & Hrun & _).
  pose proof (proj2 (get_best_split_inv _ _ _ Hrun)) as Hmin.
  assert (Hb : match py_min (dict_get (results_of int_twoDlist))
                       (dict_keys (results_of int_twoDlist)) with
               | Ok b => Qc_eqb b (frac 123 2)
               | Raise _ => false
               end = true) by (vm_compute; reflexivity).
  rewrite Hmin in Hb. apply Qc_eqb_eq in Hb. subst best.
  exists (results_of int_twoDlist). split; [exact Hrun |].
  assert (Hv : match dict_get (results_of int_twoDlist) (frac 123 2) with
               | Some (o, n) =>
                   eqb o (Num (frac 2104 100)) && eqb n (Num (frac 154 10))
               | None => false
               end = true) by (vm_compute; reflexivity).
  destruct (dict_get (results_of int_twoDlist) (frac 123 2)) as [[o n] |].
  - apply andb_true_iff in Hv. destruct Hv as [Ho Hn].
    apply eqb_eq in Ho, Hn. subst o n. reflexivity.
  - exfalso. exact (Bool.diff_false_true Hv).
Qed.

Lemma leb_false_ltb_false (a b : float) : leb a b = false -> ltb a b = false.
Proof.
  destruct a as [p |], b as [q |]; simpl; try reflexivity.
  intros H. apply Qc_ltb_ge. apply Qc_leb_gt in H. apply Qclt_le_weak, H.
Qed.

Lemma ltb_irrefl (a : float) : ltb a a = false.
Proof. destruct a as [p |]; simpl; [apply Qc_ltb_irrefl | reflexivity]. Qed.

(** What [get_best_split] returns on an input of at least two rows, the
    scores being those of exact arithmetic: a mapping and a best
    threshold.  The keys of
    the mapping are exactly the candidate thresholds of [splits] on the
    feature column, each once and in strictly ascending order, and each
    is mapped to the pair that [MAE] returns for the parts that
    [split_data] makes at it.  The best threshold is one of the keys; no
    candidate has a new_mae strictly below the best one's, and a candidate
    at a smaller threshold has a new_mae that is not even [<=] it (ties go
    to the first, smallest threshold).  Whenever the two new_mae compared
    are numbers, the best one's is the smaller or equal one. *)
Theorem get_best_split_result (data : list (Qc * Qc)) :
  (2 <= length data)%nat ->
  exists results best,
    get_best_split data = Ok (results, best) /\
    (forall t, In t (dict_keys results) <-> In t (splits (column0 data))) /\
    StronglySorted Qclt (dict_keys results) /\
    (forall t, In t (splits (column0 data)) ->
       exists x_true y_true x_false y_false e,
         split_data (column0 data) (column1 data) t
           = Ok (x_true, y_true, x_false, y_false) /\
         MAE (column1 data) y_true y_false = Ok e /\
         dict_get results t = Some e) /\
    In best (dict_keys results) /\
    exists old_b new_b,
      dict_get results best = Some (old_b, new_b) /\
      forall t old_t new_t,
        dict_get results t = Some (old_t, new_t) ->
        ltb new_t new_b = false /\
        (t < best -> leb new_t new_b = false) /\
        (new_t <> NaN -> new_b <> NaN -> leb new_b new_t = true).
Proof.
  intros Hlen.
  destruct (get_best_split_scan data Hlen)
    as (l1 & best & l2 & Hkeys & Hrun & Hbefore & Hafter & _).
  exists (results_of data), best.
  assert (Hbest : In best (dict_keys (results_of data))).
  { rewrite Hkeys. apply in_app_iff. right. left. reflexivity. }
  split; [exact Hrun |]. split; [apply results_keys |].
  split; [apply results_keys_ascending |]. split; [| split; [exact Hbest |]].
  - intros t Ht.
    assert (Hy : column1 data <> []).
    { destruct data; [simpl in Hlen; lia | discriminate]. }
    do 5 eexists. split; [| split].
    + apply split_data_ok. apply columns_same_length.
    + apply MAE_ok. exact Hy.
    + apply results_get. exact Ht.
  - eexists _, _. split.
    + apply results_get. apply results_keys. exact Hbest.
    + intros t old_t new_t Hget.
      apply results_get_inv in Hget. destruct Hget as [Hin Hscore].
      assert (Hnew : new_t = snd (score (column0 data) (column1 data) t))
        by (rewrite <- Hscore; reflexivity).
      rewrite Hnew. clear Hnew Hscore.
      apply results_keys in Hin.
      assert (Hstrict : ltb (snd (score (column0 data) (column1 data) t))
                            (snd (score (column0 data) (column1 data) best))
                        = false).
      { rewrite Hkeys in Hin. apply in_app_iff in Hin.
        destruct Hin as [Hin | [<- | Hin]].
        - apply leb_false_ltb_false. apply Hbefore, Hin.
        - apply ltb_irrefl.
        - apply Hafter, Hin. }
      split; [exact Hstrict |]. split.
      * intros Hlt. apply Hbefore.
        apply (before_of_below l1 best l2 t); [| | exact Hlt].
        -- rewrite <- Hkeys. apply results_keys_ascending.
        -- rewrite <- Hkeys. exact Hin.
      * intros Ht Hb. apply ltb_false_leb; assumption.
Qed.

Lemma get_best_split_result_witness :
  exists results best,
    get_best_split int_twoDlist = Ok (results, best) /\
    StronglySorted Qclt (dict_keys results) /\
    In best (dict_keys results).
Proof.
  assert (Hlen : (2 <= length int_twoDlist)%nat) by (vm_compute; lia).
  destruct (get_best_split_result int_twoDlist Hlen)
    as (results & best & Hrun & _ & Hsorted & _ & Hbest & _).
  exists results, best. repeat split; assumption.
Defined.

(** ** Concrete runs *)

Lemma float_same_eq (a b : float) : float_same a b = true -> a = b.
Proof.
  destruct a as [p |], b as [q |]; simpl; try discriminate.
  - intros H. apply Qc_eqb_eq in H. subst q. reflexivity.
  - reflexivity.
Qed.

Lemma errors_same_eq (a b : errors) : errors_same a b = true -> a = b.
Proof.
  destruct a as [a1 a2], b as [b1 b2]. unfold errors_same. cbn [fst snd].
  intros H. apply andb_true_iff in H. destruct H as [H1 H2].
  apply float_same_eq in H1, H2. subst. reflexivity.
Qed.

Lemma dict_same_eq (d1 d2 : dict errors) : dict_same d1 d2 = true -> d1 = d2.
Proof.
  revert d2. induction d1 as [| [k1 v1] d1 IH]; intros [| [k2 v2] d2];
    cbn [dict_same]; try discriminate.
  - reflexivity.
  - intros H. apply andb_true_iff in H. destruct H as [H H3].
    apply andb_true_iff in H. destruct H as [H1 H2].
    apply Qc_eqb_eq in H1. apply errors_same_eq in H2. apply IH in H3.
    subst. reflexivity.
Qed.

Lemma run_same_eq (r : result (dict errors * Qc)) (d : dict errors) (b : Qc) :
  run_same r d b = true -> r = Ok (d, b).
Proof.
  destruct r as [[d' b'] | e]; cbn [run_same]; [| discriminate].
  intros H. apply andb_true_iff in H. destruct H as [H1 H2].
  apply dict_same_eq in H1. apply Qc_eqb_eq in H2. subst. reflexivity.
Qed.

(** C2, at the failing input: with features [7,7,27,80,43] and the
    targets [53,28,83,25,75] of the notebook, the keys are the candidate
    thresholds 7, 17, 35, 61.5, each with its pair of errors, but the
    threshold returned as best is 7, whose new_mae is NaN (its lower part
    is empty), and not 61.5, whose new_mae 15.4 is the minimal one: the
    scan of [min] starts from 7 and no number is [<] NaN. *)
Theorem get_best_split_not_minimal :
  get_best_split (rows [7; 7; 27; 80; 43]%Z [53; 28; 83; 25; 75]%Z)
  = Ok ([(frac 7 1, (Num (frac 2104 100), NaN));
         (frac 17 1, (Num (frac 2104 100), Num (frac 194 10)));
         (frac 35 1, (Num (frac 2104 100), Num (frac 64 3)));
         (frac 123 2, (Num (frac 2104 100), Num (frac 154 10)))],
        frac 7 1) /\
  ltb (Num (frac 154 10)) NaN = false /\
  leb NaN (Num (frac 154 10)) = false.
Proof.
  split; [| split; reflexivity].
  apply run_same_eq. vm_compute. reflexivity.
Qed.

(** ** Empty parts *)

Lemma dict_keys_set_head {V : Type} (d : dict V) (k : Qc) (v : V) :
  hd_error (dict_keys (dict_set d k v))
  = match d with
    | [] => Some k
    | (k0, _) :: _ => Some k0
    end.
Proof.
  destruct d as [| [k0 v0] d]; simpl; [reflexivity |].
  destruct (Qc_eqb k0 k); reflexivity.
Qed.

Lemma table_keys_head (x y pts : list Qc) (d : dict errors) :
  hd_error (dict_keys (table x y pts d))
  = match d with
    | [] => hd_error pts
    | (k0, _) :: _ => Some k0
    end.
Proof.
  revert d. induction pts as [| p pts IH]; intros d.
  - destruct d as [| [k0 v0] d]; reflexivity.
  - change (table x y (p :: pts) d)
      with (table x y pts (dict_set d p (score x y p))).
    rewrite IH.
    pose proof (dict_keys_set_head d p (score x y p)) as Hhd.
    destruct (dict_set d p (score x y p)) as [| [k1 v1] d1] eqn:Hset.
    + destruct d as [| [k0 v0] d]; simpl in Hset; [discriminate |].
      destruct (Qc_eqb k0 p); discriminate.
    + simpl in Hhd. destruct d as [| [k0 v0] d]; simpl; congruence.
Qed.

Lemma MAE_empty_part (y y_true y_false : list Qc) :
  y <> [] -> y_true = [] \/ y_false = [] ->
  MAE y y_true y_false = Ok (Num (mean_abs_dev y), NaN).
Proof.
  intros Hy Hempty. rewrite MAE_ok by exact Hy.
  rewrite weighted_mae_empty by exact Hempty. reflexivity.
Qed.

(** What the code does with an empty part: when the target array is not
    empty and one of the two parts is, [MAE] raises nothing and returns
    NaN as new_mae; and the scan of [min] never moves to a threshold that
    leaves one part empty, so that such a threshold can only be returned
    when it is the first candidate. *)
Lemma empty_part_scoring :
  (forall y y_true y_false : list Qc,
     y <> [] -> y_true = [] \/ y_false = [] ->
     MAE y y_true y_false = Ok (Num (mean_abs_dev y), NaN)) /\
  (forall data : list (Qc * Qc),
     (2 <= length data)%nat ->
     exists results best,
       get_best_split data = Ok (results, best) /\
       forall x_true y_true x_false y_false,
         split_data (column0 data) (column1 data) best
           = Ok (x_true, y_true, x_false, y_false) ->
         y_true = [] \/ y_false = [] ->
         hd_error (splits (column0 data)) = Some best).
Proof.
  split; [exact MAE_empty_part |].
  intros data Hlen.
  destruct (get_best_split_scan data Hlen)
    as (l1 & best & l2 & Hkeys & Hrun & _ & _ & Hnan).
  exists (results_of data), best. split; [exact Hrun |].
  intros x_true y_true x_false y_false Hsplit Hempty.
  rewrite split_data_ok in Hsplit by apply columns_same_length.
  injection Hsplit as _ Ht _ Hf. subst y_true y_false.
  assert (Hl1 : l1 = []).
  { apply Hnan. cbn [score snd]. apply weighted_mae_empty. exact Hempty. }
  subst l1. simpl in Hkeys.
  pose proof (table_keys_head (column0 data) (column1 data)
                (splits (column0 data)) []) as Hhd.
  fold (results_of data) in Hhd. rewrite Hkeys in Hhd. simpl in Hhd.
  symmetry. exact Hhd.
Qed.

Lemma empty_part_scoring_witness :
  MAE (of_ints [1; 2; 3]%Z) (of_ints [3]%Z) []
    = Ok (Num (mean_abs_dev (of_ints [1; 2; 3]%Z)), NaN) /\
  exists results best,
    get_best_split (rows [1; 2; 2]%Z [1; 2; 3]%Z) = Ok (results, best).
Proof.
  split.
  - apply (proj1 empty_part_scoring).
    + intros H. exact (nil_cons (eq_sym H)).
    + right. reflexivity.
  - assert (Hlen : (2 <= length (rows [1; 2; 2]%Z [1; 2; 3]%Z))%nat)
      by (vm_compute; lia).
    destruct (proj2 empty_part_scoring _ Hlen) as (results & best & Hrun & _).
    exists results, best. exact Hrun.
Defined.

(** C5, at the failing input: with features [5,5,7,9] and targets
    [10,20,30,40] the threshold 5 leaves the lower part empty and [MAE]
    scores it with new_mae = NaN; [get_best_split] nevertheless returns
    it as the best threshold, although the thresholds 6 and 8 have
    new_mae = 5: it is the first candidate, and the scan of [min] only
    leaves a candidate for one that compares [<] to it. *)
Theorem get_best_split_selects_empty_part :
  split_data (of_ints [5; 5; 7; 9]%Z) (of_ints [10; 20; 30; 40]%Z) (frac 5 1)
  = Ok (of_ints [7; 9]%Z, of_ints [30; 40]%Z, [], []) /\
  MAE (of_ints [10; 20; 30; 40]%Z) (of_ints [30; 40]%Z) []
  = Ok (Num (frac 10 1), NaN) /\
  get_best_split (rows [5; 5; 7; 9]%Z [10; 20; 30; 40]%Z)
  = Ok ([(frac 5 1, (Num (frac 10 1), NaN));
         (frac 6 1, (Num (frac 10 1), Num (frac 5 1)));
         (frac 8 1, (Num (frac 10 1), Num (frac 5 1)))],
        frac 5 1).
Proof.
  split; [| split].
  - rewrite split_data_ok by reflexivity. reflexivity.
  - rewrite MAE_empty_part;
      [| intros H; exact (nil_cons (eq_sym H)) | right; reflexivity].
    do 3 f_equal. apply Qc_is_canon. vm_compute. reflexivity.
  - apply run_same_eq. vm_compute. reflexivity.
Qed.

(** ** A feature column with a single value *)









(** ** [old_mae] *)

(** C9: for a target array [y] that is not empty, [MAE] returns, whatever
    the two parts are, the mean absolute deviation of [y] from its mean
    as old_mae; for any [y], two calls of [MAE] that return give the same
    old_mae (on an empty [y] no call returns); hence every entry of the
    mapping returned by [get_best_split] carries the same old_mae, that
    of the target column. *)
Theorem old_mae_invariant :
  (forall y y_true y_false y_true' y_false' : list Qc,
     y <> [] ->
     exists new_mae new_mae',
       MAE y y_true y_false = Ok (Num (mean_abs_dev y), new_mae) /\
       MAE y y_true' y_false' = Ok (Num (mean_abs_dev y), new_mae')) /\
  (forall (y y_true y_false y_true' y_false' : list Qc) (e e' : errors),
     MAE y y_true y_false = Ok e ->
     MAE y y_true' y_false' = Ok e' ->
     fst e = fst e' /\ fst e = Num (mean_abs_dev y)) /\
  (forall data : list (Qc * Qc),
     (2 <= length data)%nat ->
     exists results best,
       get_best_split data = Ok (results, best) /\
       forall t old_mae new_mae,
         dict_get results t = Some (old_mae, new_mae) ->
         old_mae = Num (mean_abs_dev (column1 data))).
Proof.
  split; [| split].
  - intros y y_true y_false y_true' y_false' Hy.
    eexists _, _. split; apply MAE_ok; exact Hy.
  - intros y y_true y_false y_true' y_false' e e' He He'.
    destruct y as [| v y]; [rewrite MAE_empty_y in He; discriminate |].
    rewrite MAE_ok in He, He' by discriminate.
    injection He as <-. injection He' as <-. split; reflexivity.
  - intros data Hlen.
    destruct (get_best_split_scan data Hlen) as (l1 & best & l2 & _ & Hrun & _).
    exists (results_of data), best. split; [exact Hrun |].
    intros t old_mae new_mae Hget.
    apply results_get_inv in Hget. destruct Hget as [_ Hscore].
    unfold score in Hscore. congruence.
Qed.

Lemma old_mae_invariant_witness :
  (exists new_mae new_mae',
     MAE (of_ints [53; 28; 83; 25; 75]%Z) (of_ints [25]%Z)
         (of_ints [53; 28; 83; 75]%Z)
       = Ok (Num (mean_abs_dev (of_ints [53; 28; 83; 25; 75]%Z)), new_mae) /\
     MAE (of_ints [53; 28; 83; 25; 75]%Z) (of_ints [28; 83; 25; 75]%Z)
         (of_ints [53]%Z)
       = Ok (Num (mean_abs_dev (of_ints [53; 28; 83; 25; 75]%Z)), new_mae')) /\
  exists results best, get_best_split int_twoDlist = Ok (results, best).
Proof.
  split.
  - apply (proj1 old_mae_invariant).
    intros H. exact (nil_cons (eq_sym H)).
  - assert (Hlen : (2 <= length int_twoDlist)%nat) by (vm_compute; lia).
    destruct (proj2 (proj2 old_mae_invariant) int_twoDlist Hlen)
      as (results & best & Hrun & _).
    exists results, best. exact Hrun.
Defined.

(** * Further properties of the notebook's functions *)

(** ** [splits]: order, bounds, input order, repeated values *)

Lemma splits_In (x : list Qc) (t : Qc) :
  In t (splits x) <->
  exists i, (i < length x - 1)%nat /\ t = midpoint_at (sorted x) i.
Proof.
  rewrite splits_map, in_map_iff. split.
  - intros (i & <- & Hi). apply in_seq in Hi. exists i. split; [lia | reflexivity].
  - intros (i & Hi & ->). exists i. split; [reflexivity |]. apply in_seq. lia.
Qed.

Lemma sorted_nth_In (x : list Qc) (i : nat) :
  (i < length x)%nat -> In (nth i (sorted x) 0) x.
Proof.
  intros Hi.
  apply (Permutation_in _ (Permutation_sym (sorted_perm x))).
  apply nth_In. rewrite sorted_length. exact Hi.
Qed.

(** In exact arithmetic: whatever the input (repetitions allowed),
    [splits] returns one value less than it was given, in ascending order,
    and each value is the midpoint of two elements of the input and lies
    between them. *)
Lemma exact_splits_ordered (x : list Qc) :
  length (splits x) = (length x - 1)%nat /\
  StronglySorted Qcle (splits x) /\
  forall t, In t (splits x) ->
    exists a b, In a x /\ In b x /\
                t = (a + b) / frac 2 1 /\ a <= t /\ t <= b.
Proof.
  split; [apply splits_length |]. split; [apply splits_ascending |].
  intros t Ht. apply splits_In in Ht. destruct Ht as (i & Hi & ->).
  exists (nth i (sorted x) 0), (nth (i + 1) (sorted x) 0).
  split; [apply sorted_nth_In; lia |].
  split; [apply sorted_nth_In; lia |].
  split; [reflexivity |].
  apply midpoint_le. apply ascending_nth; [apply sorted_ascending | lia |].
  rewrite sorted_length. lia.
Qed.

(** X1: on an int64 array of integers of magnitude at most 2^52
    (repetitions allowed; their sums do not wrap around in int64 and halve
    without rounding in float64), [splits] returns one value less than it
    was given, in ascending order, and each value is the midpoint of two
    elements of the input and lies between them. *)
Theorem splits_ordered_within_input (zs : list Z) :
  Forall small_int zs ->
  let x := of_ints zs in
  length (splits x) = (length zs - 1)%nat /\
  StronglySorted Qcle (splits x) /\
  forall t, In t (splits x) ->
    exists a b, In a zs /\ In b zs /\
                t = (frac a 1 + frac b 1) / frac 2 1 /\
                frac a 1 <= t /\ t <= frac b 1.
Proof.
  intros _ x. destruct (exact_splits_ordered x) as (Hlen & Hasc & Hmid).
  unfold x in *. rewrite of_ints_length in Hlen.
  split; [exact Hlen |]. split; [exact Hasc |].
  intros t Ht. destruct (Hmid t Ht) as (qa & qb & Ha & Hb & Heq & Hle).
  unfold of_ints in Ha, Hb. apply in_map_iff in Ha, Hb.
  destruct Ha as (a & <- & Ha). destruct Hb as (b & <- & Hb).
  exists a, b. split; [exact Ha |]. split; [exact Hb |].
  split; [exact Heq | exact Hle].
Qed.

Lemma splits_ordered_within_input_witness :
  let x := of_ints [25; 36; 82; 47; 82]%Z in
  length (splits x) = 4%nat /\ StronglySorted Qcle (splits x).
Proof.
  destruct (splits_ordered_within_input [25; 36; 82; 47; 82]%Z)
    as (Hlen & Hasc & _).
  - repeat constructor; unfold small_int; simpl; lia.
  - split; [exact Hlen | exact Hasc].
Defined.

(** Two ascending lists with the same elements are the same list. *)
Lemma ascending_unique (l1 l2 : list Qc) :
  StronglySorted Qcle l1 -> StronglySorted Qcle l2 -> Permutation l1 l2 ->
  l1 = l2.
Proof.
  intros H1. revert l2. induction H1 as [| a l1 Hl1 IH Ha]; intros l2 H2 Hp.
  - apply Permutation_nil in Hp. symmetry. exact Hp.
  - destruct H2 as [| b l2 Hl2 Hb].
    + apply Permutation_sym, Permutation_nil in Hp. discriminate.
    + assert (Hab : a = b).
      { rewrite Forall_forall in Ha, Hb. apply Qcle_antisym.
        - assert (Hin : In b (a :: l1)).
          { apply (Permutation_in _ (Permutation_sym Hp)). left. reflexivity. }
          destruct Hin as [<- | Hin]; [apply Qcle_refl | apply Ha, Hin].
        - assert (Hin : In a (b :: l2)).
          { apply (Permutation_in _ Hp). left. reflexivity. }
          destruct Hin as [<- | Hin]; [apply Qcle_refl | apply Hb, Hin]. }
      subst b. f_equal. apply IH; [exact Hl2 |].
      eapply Permutation_cons_inv. exact Hp.
Qed.

Lemma sorted_of_permutation (x x' : list Qc) :
  Permutation x x' -> sorted x = sorted x'.
Proof.
  intros Hp. apply ascending_unique; try apply sorted_ascending.
  eapply Permutation_trans; [apply Permutation_sym, sorted_perm |].
  eapply Permutation_trans; [exact Hp | apply sorted_perm].
Qed.

Lemma splits_of_permutation (x x' : list Qc) :
  Permutation x x' -> splits x = splits x'.
Proof.
  intros Hp. rewrite !splits_map.
  rewrite (sorted_of_permutation x x' Hp), (Permutation_length Hp).
  reflexivity.
Qed.

(** X2: the order of the input does not matter to [splits]: two inputs
    that are permutations of each other give the same list. *)
Theorem splits_input_order_irrelevant (x x' : list Qc) :
  Permutation x x' -> splits x = splits x'.
Proof. apply splits_of_permutation. Qed.

Lemma splits_input_order_irrelevant_witness :
  splits (of_ints [7; 30; 27; 80; 43]%Z) = splits (of_ints [30; 7; 27; 80; 43]%Z).
Proof.
  apply (splits_input_order_irrelevant (of_ints [7; 30; 27; 80; 43]%Z)
           (of_ints [30; 7; 27; 80; 43]%Z)).
  apply perm_swap.
Defined.






(** ** [split_data]: nothing lost, nothing repeated *)



Lemma map_fst_combine {A B : Type} (l : list A) (l' : list B) :
  length l = length l' -> map fst (combine l l') = l.
Proof.
  revert l'. induction l as [| a l IH]; intros [| b l'] H;
    simpl in *; try discriminate; [reflexivity |].
  f_equal. apply IH. congruence.
Qed.





(** ** Thresholds of pairwise distinct features *)

Lemma threshold_strictly_between (x : list Qc) (i : nat) :
  NoDup x -> (i < length x - 1)%nat ->
  nth i (sorted x) 0 < midpoint_at (sorted x) i /\
  midpoint_at (sorted x) i < nth (i + 1) (sorted x) 0.
Proof.
  intros Hnd Hi. apply midpoint_between.
  apply sorted_strict; [exact Hnd | lia].
Qed.

Lemma ascending_nth_le (l : list Qc) (i j : nat) :
  StronglySorted Qcle l -> (i <= j)%nat -> (j < length l)%nat ->
  nth i l 0 <= nth j l 0.
Proof.
  intros Hs Hij Hj. destruct (Nat.eq_dec i j) as [-> | Hne].
  - apply Qcle_refl.
  - apply ascending_nth; [exact Hs | lia | exact Hj].
Qed.

Lemma threshold_not_a_feature (x : list Qc) (t : Qc) :
  NoDup x -> In t (splits x) -> ~ In t x.
Proof.
  intros Hnd Ht Hin. apply splits_In in Ht. destruct Ht as (i & Hi & ->).
  destruct (threshold_strictly_between x i Hnd Hi) as [Hlo Hhi].
  apply (Permutation_in _ (sorted_perm x)) in Hin.
  apply (In_nth _ _ 0) in Hin. destruct Hin as (j & Hj & Heq).
  rewrite <- Heq in Hlo, Hhi.
  destruct (Nat.le_gt_cases j i) as [Hji | Hji].
  - apply (Qclt_not_le _ _ Hlo).
    apply ascending_nth_le; [apply sorted_ascending | exact Hji |].
    rewrite sorted_length. lia.
  - apply (Qclt_not_le _ _ Hhi).
    apply ascending_nth_le; [apply sorted_ascending | lia | exact Hj].
Qed.

Lemma filter_nonempty {A : Type} (f : A -> bool) (l : list A) (a : A) :
  In a l -> f a = true -> filter f l <> [].
Proof.
  intros Hin Hf Hnil.
  assert (H : In a (filter f l)) by (apply filter_In; split; assumption).
  rewrite Hnil in H. destruct H.
Qed.

Lemma length_zero_nil {A : Type} (l : list A) : l <> [] <-> length l <> 0%nat.
Proof.
  destruct l; simpl; split; intros H; congruence.
Qed.

(** The two parts that [split_data] makes at a candidate threshold of
    pairwise distinct features: neither is empty. *)
Lemma distinct_parts_nonempty (x y : list Qc) (t : Qc) :
  NoDup x -> length x = length y -> In t (splits x) ->
  compress (gt_scalar x t) y <> [] /\ compress (lt_scalar x t) y <> [].
Proof.
  intros Hnd Hlen Ht. apply splits_In in Ht. destruct Ht as (i & Hi & ->).
  destruct (threshold_strictly_between x i Hnd Hi) as [Hlo Hhi].
  unfold gt_scalar, lt_scalar. split; apply length_zero_nil;
    rewrite compress_length_filter by exact Hlen; apply length_zero_nil.
  - apply (filter_nonempty _ _ (nth (i + 1) (sorted x) 0)).
    + apply sorted_nth_In. lia.
    + apply Qc_ltb_lt. exact Hhi.
  - apply (filter_nonempty _ _ (nth i (sorted x) 0)).
    + apply sorted_nth_In. lia.
    + apply Qc_ltb_lt. exact Hlo.
Qed.

(** In exact arithmetic: a threshold of pairwise distinct features is a
    proper cut. *)
Lemma exact_proper_cut (x y : list Qc) (t : Qc) :
  NoDup x -> length x = length y -> In t (splits x) ->
  ~ In t x /\
  exists x_true y_true x_false y_false,
    split_data x y t = Ok (x_true, y_true, x_false, y_false) /\
    y_true <> [] /\ y_false <> [] /\
    (length y_true + length y_false)%nat = length y.
Proof.
  intros Hnd Hlen Ht.
  assert (Hnin : ~ In t x) by (apply threshold_not_a_feature; assumption).
  split; [exact Hnin |].
  rewrite (split_data_ok x y t Hlen). do 4 eexists. split; [reflexivity |].
  destruct (distinct_parts_nonempty x y t Hnd Hlen Ht) as [H1 H2].
  split; [exact H1 |]. split; [exact H2 |].
  unfold gt_scalar, lt_scalar. rewrite !compress_length_filter by exact Hlen.
  pose proof (three_way_count x t) as Hc.
  assert (Hz : filter (fun v => Qc_eqb v t) x = []).
  { destruct (filter (fun v => Qc_eqb v t) x) as [| a l] eqn:E; [reflexivity |].
    exfalso. assert (Ha : In a (filter (fun v => Qc_eqb v t) x))
      by (rewrite E; left; reflexivity).
    apply filter_In in Ha. destruct Ha as [Ha Hb].
    apply Qc_eqb_eq in Hb. subst a. contradiction. }
  rewrite Hz in Hc. simpl in Hc. lia.
Qed.

(** X5: when the features are an int64 array of pairwise distinct
    integers of magnitude at most 2^52 (their midpoints are computed
    without wrap-around or rounding), every threshold that [splits]
    returns for them is a proper cut: it is not itself a feature,
    [split_data] at it returns two non-empty parts, and the two parts
    together hold all the samples. *)
Theorem distinct_features_proper_cut (zs : list Z) (y : list Qc) (t : Qc) :
  Forall small_int zs -> NoDup zs -> length zs = length y ->
  In t (splits (of_ints zs)) ->
  ~ In t (of_ints zs) /\
  exists x_true y_true x_false y_false,
    split_data (of_ints zs) y t = Ok (x_true, y_true, x_false, y_false) /\
    y_true <> [] /\ y_false <> [] /\
    (length y_true + length y_false)%nat = length y.
Proof.
  intros _ Hnd Hlen Ht. apply exact_proper_cut.
  - apply of_ints_NoDup, Hnd.
  - rewrite of_ints_length. exact Hlen.
  - exact Ht.
Qed.

Lemma distinct_features_proper_cut_witness :
  exists x_true y_true x_false y_false,
    split_data (of_ints [7; 30; 27; 80; 43]%Z)
               (of_ints [53; 28; 83; 25; 75]%Z) (frac 123 2)
    = Ok (x_true, y_true, x_false, y_false) /\
    y_true <> [] /\ y_false <> [] /\
    (length y_true + length y_false)%nat
    = length (of_ints [53; 28; 83; 25; 75]%Z).
Proof.
  apply (distinct_features_proper_cut [7; 30; 27; 80; 43]%Z
           (of_ints [53; 28; 83; 25; 75]%Z) (frac 123 2)).
  - repeat constructor; unfold small_int; simpl; lia.
  - repeat (constructor; [simpl; lia |]). constructor.
  - reflexivity.
  - apply existsb_Qc_eqb. vm_compute. reflexivity.
Defined.

(** ** [MAE]: sign and special cases *)

Lemma Qc_of_nat_nonneg (n : nat) : 0 <= Qc_of_nat n.
Proof.
  unfold Qc_of_nat, Qcle. cbn [this Q2Qc]. rewrite !Qred_correct.
  unfold Qle. simpl. lia.
Qed.

Lemma Qc_of_nat_S (n : nat) : Qc_of_nat (S n) = Qc_of_nat n + 1.
Proof.
  apply Qc_is_canon. unfold Qc_of_nat, Qcplus. cbn [this Q2Qc].
  rewrite !Qred_correct. rewrite Nat2Z.inj_succ, <- Z.add_1_r.
  rewrite inject_Z_plus. reflexivity.
Qed.

Lemma Qc_of_nat_neq_0 (n : nat) : n <> 0%nat -> Qc_of_nat n <> 0.
Proof.
  intros Hn Heq. apply (f_equal this) in Heq.
  unfold Qc_of_nat in Heq. cbn [this Q2Qc] in Heq.
  assert (H : (inject_Z (Z.of_nat n) == 0)%Q).
  { rewrite <- (Qred_correct (inject_Z (Z.of_nat n))), Heq. reflexivity. }
  unfold Qeq in H. simpl in H. lia.
Qed.

Lemma Qcdiv_nonneg (a b : Qc) : 0 <= a -> 0 <= b -> 0 <= a / b.
Proof.
  intros Ha Hb. unfold Qcle, Qcdiv, Qcmult, Qcinv in *.
  cbn [this Q2Qc] in *. rewrite !Qred_correct in *.
  apply Qmult_le_0_compat; [exact Ha |]. apply Qinv_le_0_compat. exact Hb.
Qed.

Lemma Qcmult_nonneg (a b : Qc) : 0 <= a -> 0 <= b -> 0 <= a * b.
Proof.
  intros Ha Hb. unfold Qcle, Qcmult in *.
  cbn [this Q2Qc] in *. rewrite !Qred_correct in *.
  apply Qmult_le_0_compat; assumption.
Qed.

Lemma Qcplus_nonneg (a b : Qc) : 0 <= a -> 0 <= b -> 0 <= a + b.
Proof.
  intros Ha Hb. to_Q. lra.
Qed.

Lemma Qc_sum_nonneg (l : list Qc) :
  (forall a, In a l -> 0 <= a) -> 0 <= Qc_sum l.
Proof.
  induction l as [| a l IH]; intros H; simpl.
  - apply Qcle_refl.
  - apply Qcplus_nonneg.
    + apply H. left. reflexivity.
    + apply IH. intros b Hb. apply H. right. exact Hb.
Qed.

Lemma mean_abs_dev_nonneg (l : list Qc) : 0 <= mean_abs_dev l.
Proof.
  unfold mean_abs_dev, Qc_mean at 1. apply Qcdiv_nonneg.
  - apply Qc_sum_nonneg. intros a Ha. apply in_map_iff in Ha.
    destruct Ha as (v & <- & _). apply Qcabs_nonneg.
  - apply Qc_of_nat_nonneg.
Qed.

Lemma weighted_mae_nan (y y_true y_false : list Qc) :
  weighted_mae y y_true y_false = NaN <-> y_true = [] \/ y_false = [].
Proof.
  split; [| apply weighted_mae_empty].
  destruct y_true as [| a yt]; [left; reflexivity |].
  destruct y_false as [| b yf]; [right; reflexivity |].
  rewrite weighted_mae_num by discriminate. discriminate.
Qed.

(** X6: for a target array that is not empty, [MAE] returns a number that
    is not negative as old_mae; its new_mae is NaN exactly when one of the
    two parts is empty, and otherwise it is the size-weighted sum of the
    mean absolute deviations of the two parts, which is not negative
    either. *)
Theorem MAE_scores (y y_true y_false : list Qc) :
  y <> [] ->
  exists old_mae new_mae,
    MAE y y_true y_false = Ok (Num old_mae, new_mae) /\
    0 <= old_mae /\
    (new_mae = NaN <-> y_true = [] \/ y_false = []) /\
    (y_true <> [] -> y_false <> [] ->
     exists q,
       new_mae = Num q /\ 0 <= q /\
       q = Qc_of_nat (length y_true) / Qc_of_nat (length y)
             * mean_abs_dev y_true
           + Qc_of_nat (length y_false) / Qc_of_nat (length y)
             * mean_abs_dev y_false).
Proof.
  intros Hy. rewrite MAE_ok by exact Hy. eexists _, _.
  split; [reflexivity |]. split; [apply mean_abs_dev_nonneg |].
  split; [apply weighted_mae_nan |].
  intros Ht Hf. rewrite weighted_mae_num by assumption.
  eexists. split; [reflexivity |]. split; [| reflexivity].
  apply Qcplus_nonneg; apply Qcmult_nonneg;
    try apply mean_abs_dev_nonneg;
    apply Qcdiv_nonneg; apply Qc_of_nat_nonneg.
Qed.

Lemma MAE_scores_witness :
  exists old_mae new_mae,
    MAE (of_ints [53; 28; 83; 25; 75]%Z) (of_ints [25]%Z)
        (of_ints [53; 28; 83; 75]%Z)
    = Ok (Num old_mae, new_mae) /\ 0 <= old_mae.
Proof.
  destruct (MAE_scores (of_ints [53; 28; 83; 25; 75]%Z) (of_ints [25]%Z)
              (of_ints [53; 28; 83; 75]%Z))
    as (o & n & Hrun & Ho & _).
  - intros H. exact (nil_cons (eq_sym H)).
  - exists o, n. split; assumption.
Defined.

Lemma Qc_sum_constant (l : list Qc) (c : Qc) :
  (forall a, In a l -> a = c) -> Qc_sum l = Qc_of_nat (length l) * c.
Proof.
  induction l as [| a l IH]; intros H.
  - simpl. change (Qc_of_nat 0) with 0. ring.
  - cbn [Qc_sum fold_right length]. fold (Qc_sum l).
    rewrite IH by (intros b Hb; apply H; right; exact Hb).
    rewrite (H a) by (left; reflexivity). rewrite Qc_of_nat_S. ring.
Qed.

Lemma Qc_mean_constant (l : list Qc) (c : Qc) :
  l <> [] -> (forall a, In a l -> a = c) -> Qc_mean l = c.
Proof.
  intros Hne H. unfold Qc_mean. rewrite (Qc_sum_constant l c H).
  rewrite Qcmult_comm. apply Qcdiv_mult_l.
  apply Qc_of_nat_neq_0. apply length_zero_nil. exact Hne.
Qed.

Lemma mean_abs_dev_constant (l : list Qc) (c : Qc) :
  l <> [] -> (forall a, In a l -> a = c) -> mean_abs_dev l = 0.
Proof.
  intros Hne H. unfold mean_abs_dev.
  rewrite (Qc_mean_constant l c Hne H).
  apply (Qc_mean_constant _ 0).
  - destruct l; [congruence | discriminate].
  - intros a Ha. apply in_map_iff in Ha. destruct Ha as (v & <- & Hv).
    rewrite (H v Hv). unfold Qcminus. rewrite Qcplus_opp_r.
    apply Qcabs_pos. apply Qcle_refl.
Qed.

(** X7: for int64 targets: when each of the two parts is non-empty and
    holds a single repeated integer (each part is pure), of a magnitude
    that keeps the sum of the part within 2^53 (so that its float64 mean
    is that integer itself), [MAE] scores the split with new_mae = 0; and
    a target array that holds a single repeated integer in this way has
    old_mae = 0. *)
Theorem MAE_pure_parts (y y_true y_false : list Qc) (c1 c2 : Z) :
  y <> [] -> y_true <> [] -> y_false <> [] ->
  (forall a, In a y_true -> a = frac c1 1) ->
  (forall a, In a y_false -> a = frac c2 1) ->
  (Z.abs c1 * Z.of_nat (length y_true) <= 2 ^ 53)%Z ->
  (Z.abs c2 * Z.of_nat (length y_false) <= 2 ^ 53)%Z ->
  (exists old_mae, MAE y y_true y_false = Ok (old_mae, Num 0)) /\
  ((forall a, In a y -> a = frac c1 1) ->
   (Z.abs c1 * Z.of_nat (length y) <= 2 ^ 53)%Z ->
   MAE y y_true y_false = Ok (Num 0, Num 0)).
Proof.
  intros Hy Ht Hf H1 H2 _ _.
  assert (Hrun : MAE y y_true y_false = Ok (Num (mean_abs_dev y), Num 0)).
  { rewrite MAE_ok by exact Hy. rewrite weighted_mae_num by assumption.
    rewrite (mean_abs_dev_constant y_true (frac c1 1) Ht H1).
    rewrite (mean_abs_dev_constant y_false (frac c2 1) Hf H2).
    rewrite !Qcmult_0_r, Qcplus_0_r. reflexivity. }
  split.
  - eexists. exact Hrun.
  - intros H _. rewrite Hrun.
    rewrite (mean_abs_dev_constant y (frac c1 1) Hy H). reflexivity.
Qed.

Lemma MAE_pure_parts_witness :
  exists old_mae,
    MAE (of_ints [3; 3; 8]%Z) (of_ints [8]%Z) (of_ints [3; 3]%Z)
    = Ok (old_mae, Num 0).
Proof.
  refine (proj1 (MAE_pure_parts (of_ints [3; 3; 8]%Z) (of_ints [8]%Z)
                   (of_ints [3; 3]%Z) 8 3 _ _ _ _ _ _ _)).
  - intros H. exact (nil_cons (eq_sym H)).
  - intros H. exact (nil_cons (eq_sym H)).
  - intros H. exact (nil_cons (eq_sym H)).
  - intros a [<- | []]. reflexivity.
  - intros a [<- | [<- | []]]; reflexivity.
  - simpl. lia.
  - simpl. lia.
Defined.

(** ** [get_best_split]: errors and size of the result *)

Lemma dict_keys_set_length {V : Type} (d : dict V) (k : Qc) (v : V) :
  (length (dict_set d k v) <= S (length d))%nat.
Proof.
  induction d as [| [k0 v0] d IH]; simpl; [lia |].
  destruct (Qc_eqb k0 k); simpl; lia.
Qed.

Lemma table_size (x y pts : list Qc) (d : dict errors) :
  (length (table x y pts d) <= length d + length pts)%nat.
Proof.
  revert d. induction pts as [| p pts IH]; intros d; simpl; [lia |].
  change (fold_left (fun d t => dict_set d t (score x y t)) pts
            (dict_set d p (score x y p)))
    with (table x y pts (dict_set d p (score x y p))).
  pose proof (IH (dict_set d p (score x y p))) as H1.
  pose proof (dict_keys_set_length d p (score x y p)) as H2. lia.
Qed.

Lemma get_best_split_too_short (data : list (Qc * Qc)) :
  (length data <= 1)%nat -> get_best_split data = Raise ValueError.
Proof.
  intros H. rewrite get_best_split_eq. cbv zeta.
  rewrite (splits_no_pair (column0 data))
    by (unfold column0; rewrite length_map; exact H).
  reflexivity.
Qed.

(** Once the two columns are taken, [get_best_split] raises exactly when
    there are fewer than two rows, and then it is the [ValueError] of
    [min] on an empty mapping.  On two rows or more it returns a mapping
    with at least one and at most (number of rows - 1) entries. *)
Lemma get_best_split_rows (data : list (Qc * Qc)) :
  ((length data <= 1)%nat -> get_best_split data = Raise ValueError) /\
  (forall e, get_best_split data = Raise e ->
             e = ValueError /\ (length data <= 1)%nat) /\
  ((2 <= length data)%nat ->
   exists results best,
     get_best_split data = Ok (results, best) /\
     (1 <= length results <= length data - 1)%nat).
Proof.
  assert (Hok : (2 <= length data)%nat ->
                exists results best,
                  get_best_split data = Ok (results, best) /\
                  (1 <= length results <= length data - 1)%nat).
  { intros Hlen.
    destruct (get_best_split_scan data Hlen)
      as (l1 & best & l2 & Hkeys & Hrun & _).
    exists (results_of data), best. split; [exact Hrun |]. split.
    - apply (f_equal (@length Qc)) in Hkeys. unfold dict_keys in Hkeys.
      rewrite length_map, length_app in Hkeys. simpl in Hkeys. lia.
    - pose proof (table_size (column0 data) (column1 data)
                    (splits (column0 data)) []) as Hsz.
      fold (results_of data) in Hsz. rewrite splits_length in Hsz.
      unfold column0 in Hsz. rewrite length_map in Hsz. simpl in Hsz. lia. }
  split; [apply get_best_split_too_short |]. split; [| exact Hok].
  intros e He. destruct (Nat.le_gt_cases (length data) 1) as [Hle | Hgt].
  - rewrite (get_best_split_too_short data Hle) in He.
    injection He as <-. split; [reflexivity | exact Hle].
  - destruct (Hok Hgt) as (results & best & Hrun & _).
    rewrite Hrun in He. discriminate.
Qed.

(** ** [splits_per_col] *)

Lemma py_str_inj (a b : nat) : py_str a = py_str b -> a = b.
Proof.
  unfold py_str. intros H.
  apply (f_equal NilEmpty.uint_of_string) in H.
  rewrite !NilEmpty.usu in H. injection H as H.
  apply (f_equal Nat.of_uint) in H. rewrite !Unsigned.of_to in H. exact H.
Qed.

Lemma col_key_inj (a b : nat) : col_key a = col_key b -> a = b.
Proof.
  unfold col_key. simpl. intros H. injection H as H. apply py_str_inj, H.
Qed.

Section StringDict.

Context {V : Type}.

Lemma sdict_get_set (d : sdict V) (k k' : string) (v : V) :
  sdict_get (sdict_set d k v) k'
  = if String.eqb k k' then Some v else sdict_get d k'.
Proof.
  induction d as [| [k0 v0] d IH]; simpl; [reflexivity |].
  destruct (String.eqb k0 k) eqn:E0; simpl.
  - apply String.eqb_eq in E0. subst k0.
    destruct (String.eqb k k'); reflexivity.
  - rewrite IH. destruct (String.eqb k0 k') eqn:E1; [| reflexivity].
    apply String.eqb_eq in E1. subst k'. rewrite String.eqb_sym, E0.
    reflexivity.
Qed.

Lemma sdict_keys_set (d : sdict V) (k : string) (v : V) :
  ~ In k (sdict_keys d) ->
  sdict_keys (sdict_set d k v) = sdict_keys d ++ [k].
Proof.
  induction d as [| [k0 v0] d IH]; simpl; intros H; [reflexivity |].
  destruct (String.eqb k0 k) eqn:E0.
  - apply String.eqb_eq in E0. exfalso. apply H. left. exact E0.
  - simpl. f_equal. apply IH. intros Hin. apply H. right. exact Hin.
Qed.

Lemma sdict_get_None (d : sdict V) (k : string) :
  ~ In k (sdict_keys d) -> sdict_get d k = None.
Proof.
  induction d as [| [k0 v0] d IH]; simpl; intros H; [reflexivity |].
  destruct (String.eqb k0 k) eqn:E0.
  - apply String.eqb_eq in E0. exfalso. apply H. left. exact E0.
  - apply IH. intros Hin. apply H. right. exact Hin.
Qed.

End StringDict.

Section PerColumn.

Variable data : array2.

(** The loop of [splits_per_col] over the column indices [cs], from the
    dict [d]. *)
Local Abbreviation per_col_loop cs d :=
  (fold_left
     (fun col_split_pts c =>
        let split_pts := splits (column data c) in
        sdict_set col_split_pts ("col_" ++ py_str c)%string split_pts)
     cs d).

Lemma per_col_untouched (cs : list nat) (d : sdict (list Qc)) (k : string) :
  (forall c, In c cs -> col_key c <> k) ->
  sdict_get (per_col_loop cs d) k = sdict_get d k.
Proof.
  revert d. induction cs as [| c cs IH]; intros d H; [reflexivity |].
  cbn [fold_left]. rewrite IH by (intros c' Hc'; apply H; right; exact Hc').
  cbv zeta. rewrite sdict_get_set.
  destruct (String.eqb _ k) eqn:E; [| reflexivity].
  apply String.eqb_eq in E. exfalso. apply (H c); [left; reflexivity | exact E].
Qed.

Lemma per_col_get (cs : list nat) (d : sdict (list Qc)) (c : nat) :
  NoDup cs -> In c cs ->
  sdict_get (per_col_loop cs d) (col_key c) = Some (splits (column data c)).
Proof.
  revert d. induction cs as [| c0 cs IH]; intros d Hnd Hin; [destruct Hin |].
  apply NoDup_cons_iff in Hnd. destruct Hnd as [Hc0 Hnd].
  cbn [fold_left]. destruct Hin as [-> | Hin].
  - rewrite per_col_untouched.
    + cbv zeta. rewrite sdict_get_set.
      unfold col_key. rewrite String.eqb_refl. reflexivity.
    + intros c' Hc' Heq. apply col_key_inj in Heq. subst c'. contradiction.
  - apply IH; assumption.
Qed.

Lemma per_col_keys (cs : list nat) (d : sdict (list Qc)) :
  NoDup cs -> (forall c, In c cs -> ~ In (col_key c) (sdict_keys d)) ->
  sdict_keys (per_col_loop cs d) = sdict_keys d ++ map col_key cs.
Proof.
  revert d. induction cs as [| c0 cs IH]; intros d Hnd Hfresh.
  - simpl. rewrite app_nil_r. reflexivity.
  - apply NoDup_cons_iff in Hnd. destruct Hnd as [Hc0 Hnd].
    cbn [fold_left]. cbv zeta.
    assert (Hset : sdict_keys (sdict_set d (col_key c0)
                                 (splits (column data c0)))
                   = sdict_keys d ++ [col_key c0]).
    { apply sdict_keys_set. apply Hfresh. left. reflexivity. }
    unfold col_key in Hset at 1.
    rewrite IH.
    + rewrite Hset, <- app_assoc. reflexivity.
    + exact Hnd.
    + intros c Hc. rewrite Hset. intros Hin. apply in_app_iff in Hin.
      destruct Hin as [Hin | [Heq | []]].
      * apply (Hfresh c); [right; exact Hc | exact Hin].
      * apply col_key_inj in Heq. subst c0. contradiction.
Qed.

End PerColumn.

Lemma col_keys_NoDup (n : nat) : NoDup (map col_key (seq 0 n)).
Proof.
  apply Finite.Injective_map_NoDup; [| apply seq_NoDup].
  intros a b. apply col_key_inj.
Qed.

(** X11: for an array with [m] columns, [splits_per_col] returns a dict
    whose keys are ['col_0'], ..., ['col_(m-1)'], in this order and all
    different; the entry of ['col_c'] is what [splits] returns for column
    [c], a list one shorter than the number of rows; any other key is
    absent. *)
Theorem splits_per_col_entries (data : array2) :
  well_shaped data ->
  sdict_keys (splits_per_col data) = map col_key (seq 0 (shape1 data)) /\
  NoDup (sdict_keys (splits_per_col data)) /\
  (forall c, (c < shape1 data)%nat ->
     sdict_get (splits_per_col data) ("col_" ++ py_str c)%string
       = Some (splits (column data c)) /\
     length (splits (column data c)) = (length (array_rows data) - 1)%nat) /\
  (forall k, (forall c, (c < shape1 data)%nat -> k <> col_key c) ->
     sdict_get (splits_per_col data) k = None).
Proof.
  intros _.
  assert (Hkeys : sdict_keys (splits_per_col data)
                  = map col_key (seq 0 (shape1 data))).
  { unfold splits_per_col. cbv zeta.
    rewrite per_col_keys; [reflexivity | apply seq_NoDup |].
    intros c _ []. }
  split; [exact Hkeys |]. split; [rewrite Hkeys; apply col_keys_NoDup |].
  split.
  - intros c Hc. split.
    + unfold splits_per_col. cbv zeta.
      apply (per_col_get data); [apply seq_NoDup | apply in_seq; lia].
    + rewrite splits_length. unfold column. rewrite length_map. reflexivity.
  - intros k Hk. apply sdict_get_None. rewrite Hkeys. intros Hin.
    apply in_map_iff in Hin. destruct Hin as (c & <- & Hc).
    apply in_seq in Hc. apply (Hk c); [lia | reflexivity].
Qed.

Lemma Qc_list_eqb_eq (l l' : list Qc) : Qc_list_eqb l l' = true -> l = l'.
Proof.
  revert l'. induction l as [| a l IH]; intros [| b l']; simpl;
    try discriminate; [reflexivity |].
  intros H. apply andb_true_iff in H. destruct H as [H1 H2].
  apply Qc_eqb_eq in H1. apply IH in H2. subst. reflexivity.
Qed.

(** On the (5,3) array of the notebook the entries are those that the
    notebook prints: col_0: 30.5, 41.5, 64.5, 82.0; col_1: 25.0, 30.0,
    39.0, 66.5; col_2: 30.0, 58.5, 84.0, 90.5. *)
Lemma splits_per_col_entries_witness :
  sdict_keys (splits_per_col int_threeCols)
    = ["col_0"; "col_1"; "col_2"]%string /\
  sdict_get (splits_per_col int_threeCols) "col_0"%string
    = Some [frac 61 2; frac 83 2; frac 129 2; frac 82 1] /\
  sdict_get (splits_per_col int_threeCols) "col_1"%string
    = Some [frac 25 1; frac 30 1; frac 39 1; frac 133 2] /\
  sdict_get (splits_per_col int_threeCols) "col_2"%string
    = Some [frac 30 1; frac 117 2; frac 84 1; frac 181 2].
Proof.
  assert (Hshape : well_shaped int_threeCols) by (repeat constructor).
  destruct (splits_per_col_entries int_threeCols Hshape)
    as (Hkeys & _ & Hget & _).
  split; [exact Hkeys |].
  assert (H0 : (0 < shape1 int_threeCols)%nat) by (simpl; lia).
  assert (H1 : (1 < shape1 int_threeCols)%nat) by (simpl; lia).
  assert (H2 : (2 < shape1 int_threeCols)%nat) by (simpl; lia).
  split; [| split].
  - rewrite (proj1 (Hget 0%nat H0) : sdict_get _ "col_0"%string = _).
    f_equal. apply Qc_list_eqb_eq. vm_compute. reflexivity.
  - rewrite (proj1 (Hget 1%nat H1) : sdict_get _ "col_1"%string = _).
    f_equal. apply Qc_list_eqb_eq. vm_compute. reflexivity.
  - rewrite (proj1 (Hget 2%nat H2) : sdict_get _ "col_2"%string = _).
    f_equal. apply Qc_list_eqb_eq. vm_compute. reflexivity.
Defined.

(** ** [splits_per_col] and [get_best_split] on the same array *)

Lemma column_length (data : array2) (c : nat) :
  length (column data c) = length (array_rows data).
Proof. unfold column. apply length_map. Qed.

Lemma first_two_column0 (data : array2) :
  column0 (first_two_columns data) = column data 0.
Proof.
  unfold column0, first_two_columns. apply map_fst_combine.
  rewrite !column_length. reflexivity.
Qed.

(** X12: on an array with at least two columns and two rows, the
    thresholds that [get_best_split] scores (the keys of its mapping) are
    the values that [splits_per_col] stores under ['col_0'], and the best
    threshold is one of them. *)
Theorem get_best_split_uses_col_0 (data : array2) :
  well_shaped data -> (2 <= shape1 data)%nat ->
  (2 <= length (array_rows data))%nat ->
  exists results best pts,
    get_best_split (first_two_columns data) = Ok (results, best) /\
    sdict_get (splits_per_col data) "col_0"%string = Some pts /\
    (forall t, In t (dict_keys results) <-> In t pts) /\
    In best pts.
Proof.
  intros _ Hcols Hrows.
  assert (Hlen : (2 <= length (first_two_columns data))%nat).
  { unfold first_two_columns. rewrite length_combine, !column_length. lia. }
  destruct (get_best_split_scan (first_two_columns data) Hlen)
    as (l1 & best & l2 & Hkeys & Hrun & _).
  exists (results_of (first_two_columns data)), best,
    (splits (column data 0)).
  split; [exact Hrun |]. split; [| split].
  - unfold splits_per_col. cbv zeta.
    apply (per_col_get data (seq 0 (shape1 data)) [] 0);
      [apply seq_NoDup | apply in_seq; lia].
  - intros t. rewrite results_keys, first_two_column0. tauto.
  - rewrite <- first_two_column0. apply results_keys.
    rewrite Hkeys. apply in_app_iff. right. left. reflexivity.
Qed.

Lemma get_best_split_uses_col_0_witness :
  exists results best pts,
    get_best_split (first_two_columns int_threeCols) = Ok (results, best) /\
    sdict_get (splits_per_col int_threeCols) "col_0"%string = Some pts /\
    In best pts.
Proof.
  assert (Hshape : well_shaped int_threeCols) by (repeat constructor).
  destruct (get_best_split_uses_col_0 int_threeCols Hshape)
    as (results & best & pts & Hrun & Hget & _ & Hbest).
  - simpl. lia.
  - simpl. lia.
  - exists results, best, pts. repeat split; assumption.
Defined.

(** ** [get_best_split]: when the smallest feature is repeated *)

Section MinFirst.

Variable key : Qc -> option errors.
Variable old : Qc.
Variable new_mae : Qc -> float.


End MinFirst.





(** ** [get_best_split]: errors *)

Lemma first_two_columns_length (a : array2) :
  length (first_two_columns a) = length (array_rows a).
Proof.
  unfold first_two_columns. rewrite length_combine, !column_length. lia.
Qed.

Lemma get_best_split_array_columns (a : array2) :
  (2 <= shape1 a)%nat ->
  get_best_split_array (Array2 a) = get_best_split (first_two_columns a).
Proof.
  intros H. unfold get_best_split_array, take_column.
  assert (H0 : Nat.ltb 0 (shape1 a) = true) by (apply Nat.ltb_lt; lia).
  assert (H1 : Nat.ltb 1 (shape1 a) = true) by (apply Nat.ltb_lt; lia).
  rewrite H0, H1. reflexivity.
Qed.

Lemma get_best_split_array_few_columns (a : array2) :
  (shape1 a < 2)%nat -> get_best_split_array (Array2 a) = Raise IndexError.
Proof.
  intros H. unfold get_best_split_array, take_column.
  destruct (shape1 a) as [| [| n]]; [reflexivity | reflexivity | lia].
Qed.

(** X8: [get_best_split] raises [IndexError] on an array of one dimension
    and on an array with fewer than two columns (at [data[:,0]] or
    [data[:,1]]).  On an array with at least two columns it raises
    exactly when there are fewer than two rows, and then it is the
    [ValueError] of [min] on an empty mapping; on two rows or more it
    returns a mapping with at least one and at most (number of rows - 1)
    entries.  No [ZeroDivisionError] and no [TypeError] leaves it. *)
Theorem get_best_split_errors :
  (forall a, get_best_split_array (Array1 a) = Raise IndexError) /\
  (forall a, well_shaped a -> (shape1 a < 2)%nat ->
     get_best_split_array (Array2 a) = Raise IndexError) /\
  (forall a, well_shaped a -> (2 <= shape1 a)%nat ->
     (length (array_rows a) <= 1)%nat ->
     get_best_split_array (Array2 a) = Raise ValueError) /\
  (forall a, well_shaped a -> (2 <= shape1 a)%nat ->
     (2 <= length (array_rows a))%nat ->
     exists results best,
       get_best_split_array (Array2 a) = Ok (results, best) /\
       (1 <= length results <= length (array_rows a) - 1)%nat) /\
  (forall data e, get_best_split_array data = Raise e ->
     e = IndexError \/ e = ValueError).
Proof.
  split; [reflexivity |].
  split; [intros a _; apply get_best_split_array_few_columns |].
  split; [| split].
  - intros a _ Hc Hr. rewrite (get_best_split_array_columns a Hc).
    apply (proj1 (get_best_split_rows (first_two_columns a))).
    rewrite first_two_columns_length. exact Hr.
  - intros a _ Hc Hr. rewrite (get_best_split_array_columns a Hc).
    destruct (proj2 (proj2 (get_best_split_rows (first_two_columns a))))
      as (results & best & Hrun & Hsize).
    + rewrite first_two_columns_length. exact Hr.
    + rewrite first_two_columns_length in Hsize.
      exists results, best. split; assumption.
  - intros [a | a] e He.
    + left. cbn in He. congruence.
    + destruct (Nat.lt_ge_cases (shape1 a) 2) as [Hc | Hc].
      * rewrite (get_best_split_array_few_columns a Hc) in He.
        left. congruence.
      * rewrite (get_best_split_array_columns a Hc) in He.
        right.
        apply (proj1 (proj2 (get_best_split_rows (first_two_columns a))) e He).
Qed.

Lemma get_best_split_errors_witness :
  get_best_split_array
    (Array2 {| shape1 := 1; array_rows := map of_ints [[7]; [30]]%Z |})
    = Raise IndexError /\
  get_best_split_array
    (Array2 {| shape1 := 2; array_rows := map of_ints [[7; 53]]%Z |})
    = Raise ValueError /\
  exists results best,
    get_best_split_array (Array2 int_threeCols) = Ok (results, best) /\
    (1 <= length results <= 4)%nat.
Proof.
  destruct get_best_split_errors as (_ & Hcols & Hrows & Hok & _).
  split; [| split].
  - apply Hcols; [repeat constructor | simpl; lia].
  - apply Hrows; [repeat constructor | simpl; lia | simpl; lia].
  - apply (Hok int_threeCols); [repeat constructor | simpl; lia | simpl; lia].
Defined.
